(** * Verification of the inference-serving and telemetry core of glosentra

    Shallow embedding of
    - [core/model_registry.py]  (ModelRegistry.get_model, _load_model)
    - [core/inference.py]       (InferenceEngine: run_inference, _decode_image,
                                 _process_results, run_async)
    - [core/db.py]              (AnalyticsDB: log_inference, log_model_usage,
                                 _background_writer, _execute_batch_write, get_stats)
    - [services/analytics.py]   (AnalyticsService.log_inference_run,
                                 get_performance_metrics)
    - [routes/api.py]           (get_models, process_image)
    - [core/chroma_integration.py] (ChromaIntegration.search_documents)
    - [config.py]               (THREAD_POOL_WORKERS). *)

From Stdlib Require Import String List Bool Arith Lia QArith Qround ZArith Permutation Sorted Lqa SpecFloat.
Import ListNotations.
Open Scope nat_scope.

(** Generic helpers: Python dict with string keys as an association list,
    and [list.__setitem__] on an in-range index. *)
Fixpoint dict_get {V : Type} (k : string) (d : list (string * V)) : option V :=
  match d with
  | [] => None
  | (k', v) :: d' => if String.eqb k k' then Some v else dict_get k d'
  end.

Fixpoint dict_set {V : Type} (k : string) (v : V) (d : list (string * V))
  : list (string * V) :=
  match d with
  | [] => [(k, v)]
  | (k', v') :: d' => if String.eqb k k' then (k, v) :: d' else (k', v') :: dict_set k v d'
  end.

Fixpoint list_set {A : Type} (l : list A) (i : nat) (x : A) : list A :=
  match l, i with
  | [], _ => []
  | _ :: l', O => x :: l'
  | y :: l', S i' => y :: list_set l' i' x
  end.

(* ------------------------------------------------------------------ *)
(** ** ModelRegistry (core/model_registry.py) *)
Module ModelRegistry.
Local Open Scope string_scope.

Definition Task := string.
Definition Path := string.

(** A YOLO object built by the [YOLO(path)] constructor; [yolo_id] is the
    index of the constructor call that produced it, so two handles are the
    same object exactly when they are equal. *)
Record YOLO := mkYOLO { yolo_path : Path; yolo_id : nat }.

(** The collaborators of [_load_model]: the Flask config [MODEL_PATHS],
    [Path(p).exists()], and whether the [n]-th [YOLO(p)] constructor call
    succeeds (it raises otherwise). *)
Record Env := mkEnv {
  MODEL_PATHS : Task -> option Path;
  path_exists : Path -> bool;
  yolo_ok : nat -> Path -> bool
}.

(** [self._models], plus two ghost fields that only observe the run:
    the paths passed to [YOLO(...)] so far, in call order, and the number of
    [_load_model] invocations. *)
Record Registry := mkRegistry {
  _models : list (Task * YOLO);
  yolo_log : list Path;
  loads : nat
}.

Definition default_map (task : Task) : Path :=
  if String.eqb task "detect" then "yolo11n.pt"
  else if String.eqb task "segment" then "yolo11n-seg.pt"
  else if String.eqb task "classify" then "yolo11n-cls.pt"
  else if String.eqb task "pose" then "yolo11n-pose.pt"
  else "yolo11n.pt".

(** [model = YOLO(path)]: one constructor call, [None] when it raises. *)
Definition YOLO_new (env : Env) (p : Path) (st : Registry) : option YOLO * Registry :=
  let n := length (yolo_log st) in
  (if yolo_ok env n p then Some (mkYOLO p n) else None,
   mkRegistry (_models st) (yolo_log st ++ [p]) (loads st)).

Definition install (task : Task) (m : YOLO) (st : Registry) : Registry :=
  mkRegistry (dict_set task m (_models st)) (yolo_log st) (loads st).

(** [_load_model(task)]: resolve the configured path, fall back to the
    default file name when it is missing ([not model_path] or the file does
    not exist), try it, and on failure try the default artifact once more. *)
Definition resolve_model_path (env : Env) (task : Task) : Path :=
  match MODEL_PATHS env task with
  | Some p => if String.eqb p "" || negb (path_exists env p) then default_map task else p
  | None => default_map task
  end.

Definition _load_model (env : Env) (task : Task) (st0 : Registry) : Registry :=
  let st := mkRegistry (_models st0) (yolo_log st0) (S (loads st0)) in
  let model_path := resolve_model_path env task in
  match YOLO_new env model_path st with
  | (Some model, st1) => install task model st1
  | (None, st1) =>
      let default_model := default_map task in
      match YOLO_new env default_model st1 with
      | (Some model, st2) => install task model st2
      | (None, st2) => st2
      end
  end.

(** [get_model(task)]: the body of the [with self._model_lock:] block. *)
Definition get_model (env : Env) (task : Task) (st : Registry) : option YOLO * Registry :=
  match dict_get task (_models st) with
  | Some _ => (dict_get task (_models st), st)
  | None =>
      let st' := _load_model env task st in
      (dict_get task (_models st'), st')
  end.

(** *** Concurrent callers

    Every caller thread runs [get_model(task)] for the same task. The whole
    body runs while [self._model_lock] is held and [_models] is touched only
    there, so a caller's effect on the registry happens at one point between
    acquiring and releasing the lock: we run the body at the release step. *)
Inductive Pc := Idle | InCS | Returned (r : option YOLO).

Record Sys := mkSys { threads : list Pc; lock : option nat; reg : Registry }.

Inductive step (env : Env) (task : Task) : Sys -> Sys -> Prop :=
| step_acquire s i :
    nth_error (threads s) i = Some Idle -> lock s = None ->
    step env task s (mkSys (list_set (threads s) i InCS) (Some i) (reg s))
| step_release s i :
    nth_error (threads s) i = Some InCS -> lock s = Some i ->
    step env task s
      (mkSys (list_set (threads s) i (Returned (fst (get_model env task (reg s)))))
             None (snd (get_model env task (reg s)))).

Inductive reachable (env : Env) (task : Task) : Sys -> Sys -> Prop :=
| reach_refl s : reachable env task s s
| reach_step s1 s2 s3 :
    step env task s1 s2 -> reachable env task s2 s3 -> reachable env task s1 s3.

Definition init (N : nat) (r : Registry) : Sys := mkSys (repeat Idle N) None r.

Definition all_returned (s : Sys) : Prop :=
  forall i pc, nth_error (threads s) i = Some pc -> exists r, pc = Returned r.

End ModelRegistry.

(* ------------------------------------------------------------------ *)
(** ** InferenceEngine (core/inference.py) *)
Module Engine.
Import ModelRegistry.

(** Channel order of a numpy image array. *)
Inductive ChannelOrder := OrdRGB | OrdBGR | OrdRGBA | OrdGray | OrdOther.

(** A numpy [uint8] image array [(h, w, c)] with its channel order. *)
Record NDArray := mkArr { arr_h : nat; arr_w : nat; arr_c : nat; arr_order : ChannelOrder }.

(** PIL image modes. *)
Inductive Mode := MRGB | MRGBA | ML | MLA | MP | MCMYK | MI | MF.

Record PilImage := mkPil { pil_mode : Mode; pil_h : nat; pil_w : nat }.

(** [np.array(image)] for a PIL image of the given mode. *)
Definition np_array (im : PilImage) : NDArray :=
  match pil_mode im with
  | MRGB => mkArr (pil_h im) (pil_w im) 3 OrdRGB
  | MRGBA => mkArr (pil_h im) (pil_w im) 4 OrdRGBA
  | ML | MP | MI | MF => mkArr (pil_h im) (pil_w im) 1 OrdGray
  | MLA => mkArr (pil_h im) (pil_w im) 2 OrdOther
  | MCMYK => mkArr (pil_h im) (pil_w im) 4 OrdOther
  end.

Definition mode_eqb (a b : Mode) : bool :=
  match a, b with
  | MRGB, MRGB | MRGBA, MRGBA | ML, ML | MLA, MLA | MP, MP
  | MCMYK, MCMYK | MI, MI | MF, MF => true
  | _, _ => false
  end.

(** [image.convert('RGB')]. *)
Definition pil_convert_rgb (im : PilImage) : PilImage := mkPil MRGB (pil_h im) (pil_w im).

(** [cv2.cvtColor(image, cv2.COLOR_BGR2RGB)] on a 3-channel BGR array. *)
Definition cvtColor_BGR2RGB (a : NDArray) : NDArray :=
  match arr_order a with
  | OrdBGR => mkArr (arr_h a) (arr_w a) (arr_c a) OrdRGB
  | _ => a
  end.

(** One raw ultralytics [Results] object: [boxes] as (xyxy, conf, cls),
    optional masks, keypoints and classification probabilities, and the
    [names] dict (absent when [hasattr(result, 'names')] is false). *)
Record RawResult := mkRaw {
  r_boxes : option (list (list Q) * list Q * list nat);
  r_masks : option (list (list Q));
  r_keypoints : option (list (list Q));
  r_probs : option (list Q);
  r_names : option (list (nat * string))
}.

Record ClassPred := mkPred { class_id : nat; confidence : Q; class_name : string }.

(** The dict returned by [_process_results]; [None] marks an absent key. *)
Record Output := mkOut {
  o_boxes : option (list (list Q));
  o_masks : option (list (list Q));
  o_classes : list nat;
  o_confidences : list Q;
  o_class_names : option (list string);
  o_keypoints : option (list (list Q));
  o_predictions : option (list ClassPred)
}.

(** The library calls the engine makes. [pil_open] is
    [Image.open(io.BytesIO(b))] followed by the pixel load that [convert] or
    [np.array] triggers ([None] when either raises); [cv2_imdecode] is
    [cv2.imdecode(nparr, cv2.IMREAD_COLOR)] ([None] for a [None] result),
    which yields a 3-channel BGR array of the given height and width;
    [get_model] is [model_registry.get_model]; [predict] is [model.predict]
    ([inr msg] when it raises); [np_argsort] is [np.argsort]. *)
Record Libs := mkLibs {
  pil_open : list Byte.byte -> option PilImage;
  cv2_imdecode : list Byte.byte -> option (nat * nat);
  lib_get_model : string -> option YOLO;
  predict : YOLO -> NDArray -> Z -> Q -> list RawResult + string;
  np_argsort : list Q -> list nat
}.

(** [_decode_image]: PIL first, OpenCV as fallback; [None] stands for the
    [ValueError("Failed to decode image")] it raises. *)
Definition _decode_image (libs : Libs) (image_bytes : list Byte.byte) : option NDArray :=
  match pil_open libs image_bytes with
  | Some image =>
      let image := if mode_eqb (pil_mode image) MRGB then image else pil_convert_rgb image in
      Some (np_array image)
  | None =>
      match cv2_imdecode libs image_bytes with
      | Some (h, w) => Some (cvtColor_BGR2RGB (mkArr h w 3 OrdBGR))
      | None => None
      end
  end.

(** Decimal rendering of a [nat], as Python's [str(int)]. *)
Fixpoint digits_aux (fuel n : nat) (acc : string) : string :=
  match fuel with
  | O => acc
  | S fuel' =>
      let d := String (Ascii.ascii_of_nat (48 + n mod 10)) acc in
      if n <? 10 then d else digits_aux fuel' (n / 10) d
  end.

Definition nat_to_string (n : nat) : string := digits_aux (S n) n EmptyString.

Definition nth_q (l : list Q) (i : nat) : Q := nth i l 0%Q.

(** [np.argsort(probs)[-5:][::-1]]. *)
Definition top5_idx (libs : Libs) (probs : list Q) : list nat :=
  let order := np_argsort libs probs in
  rev (skipn (length order - 5) order).

Definition names_get (names : list (nat * string)) (idx : nat) (dflt : string) : string :=
  match find (fun kv => Nat.eqb (fst kv) idx) names with
  | Some (_, v) => v
  | None => dflt
  end.

Definition classify_predictions (libs : Libs) (probs : list Q) (names : list (nat * string))
  : list ClassPred :=
  map (fun idx => mkPred idx (nth_q probs idx)
                    (names_get names idx ("class_" ++ nat_to_string idx)%string))
      (top5_idx libs probs).

Definition empty_output : Output :=
  mkOut (Some []) (Some []) [] [] None None None.

(** [result.names[int(cls_id)]] for every class id; [inr] is the [KeyError]. *)
Fixpoint names_index (names : list (nat * string)) (ids : list nat) : list string + string :=
  match ids with
  | [] => inl []
  | c :: ids' =>
      match find (fun kv => Nat.eqb (fst kv) c) names with
      | Some (_, v) => match names_index names ids' with
                       | inl vs => inl (v :: vs)
                       | inr e => inr e
                       end
      | None => inr (nat_to_string c)
      end
  end.

Definition in_tasks (task : string) (ts : list string) : bool :=
  existsb (String.eqb task) ts.

(** [_process_results(results, task)]; [inr] is an exception it raises. *)
Definition _process_results (libs : Libs) (results : list RawResult) (task : string)
  : Output + string :=
  match results with
  | [] => inl empty_output
  | result :: _ =>
      let out0 := mkOut None None [] [] None None None in
      let out1 :=
        if in_tasks task ["detect"; "segment"; "pose"]%string then
          match r_boxes result with
          | Some (boxes, confs, cls_ids) =>
              match r_names result with
              | Some names =>
                  match names_index names cls_ids with
                  | inl ns => inl (mkOut (Some boxes) None cls_ids confs (Some ns) None None)
                  | inr e => inr e
                  end
              | None => inl (mkOut (Some boxes) None cls_ids confs None None None)
              end
          | None => inl out0
          end
        else inl out0 in
      match out1 with
      | inr e => inr e
      | inl o1 =>
          let o2 :=
            if String.eqb task "segment" then
              match r_masks result with
              | Some m => mkOut (o_boxes o1) (Some m) (o_classes o1) (o_confidences o1)
                            (o_class_names o1) (o_keypoints o1) (o_predictions o1)
              | None => o1
              end
            else o1 in
          let o3 :=
            if String.eqb task "pose" then
              match r_keypoints result with
              | Some k => mkOut (o_boxes o2) (o_masks o2) (o_classes o2) (o_confidences o2)
                            (o_class_names o2) (Some k) (o_predictions o2)
              | None => o2
              end
            else o2 in
          if String.eqb task "classify" then
            match r_probs result with
            | Some probs =>
                (* [result.names.get(...)]: an [AttributeError] without [names] *)
                match r_names result with
                | Some names =>
                    inl (mkOut (o_boxes o3) (o_masks o3) (o_classes o3) (o_confidences o3)
                           (o_class_names o3) (o_keypoints o3)
                           (Some (classify_predictions libs probs names)))
                | None => inr "names"%string
                end
            | None => inl o3
            end
          else inl o3
      end
  end.

(** The dict returned by [run_inference]. The timing fields and [fps] read
    the wall clock and are not modelled. *)
Inductive InferResult :=
| RSuccess (predictions : Output) (task : string)
| RFailure (error : string) (task : string).

(** The stages [run_inference] reaches, in order. *)
Inductive Event := EvDecode | EvGetModel | EvPredict (imgsz : Z) (conf : Q) | EvProcess.

(** The [imgsz] and [conf] entries of [**kwargs]. *)
Record Kwargs := mkKw { kw_imgsz : option Z; kw_conf : option Q }.

Definition no_kwargs : Kwargs := mkKw None None.

(** [kwargs.get(key, default)]. *)
Definition kw_get {A : Type} (v : option A) (dflt : A) : A :=
  match v with Some x => x | None => dflt end.

(** [run_inference(task, image_bytes, **kwargs)], with the stages reached.
    Every exception inside the [try] becomes [{'success': False, ...}]. *)
Definition run_inference (libs : Libs) (task : string) (image_bytes : list Byte.byte)
  (kwargs : Kwargs) : InferResult * list Event :=
  match _decode_image libs image_bytes with
  | None => (RFailure "Failed to decode image"%string task, [EvDecode])
  | Some image =>
      match lib_get_model libs task with
      | None => (RFailure ("No model available for task: " ++ task)%string task,
                 [EvDecode; EvGetModel])
      | Some model =>
          let imgsz := kw_get (kw_imgsz kwargs) 640%Z in
          let conf := kw_get (kw_conf kwargs) (25 # 100) in
          let tr := [EvDecode; EvGetModel; EvPredict imgsz conf] in
          match predict libs model image imgsz conf with
          | inr e => (RFailure e task, tr)
          | inl results =>
              match _process_results libs results task with
              | inl predictions => (RSuccess predictions task, tr ++ [EvProcess])
              | inr e => (RFailure e task, tr ++ [EvProcess])
              end
          end
      end
  end.

(** *** The thread pool behind [run_async]

    A [ThreadPoolExecutor] in discrete time: a submitted call needs
    [remaining] ticks of a worker; the first [max_workers] pending futures
    (FIFO) are the ones running, each tick advances each of them by one. *)
Record Future := mkFut { fid : nat; remaining : nat; outcome : InferResult }.

Record Pool := mkPool {
  max_workers : nat;
  pending : list Future;
  done : list (nat * InferResult);
  next_id : nat
}.

(** [self.executor.submit(...)]: returns the future's id. *)
Definition executor_submit (p : Pool) (dur : nat) (res : InferResult) : nat * Pool :=
  (next_id p,
   mkPool (max_workers p) (pending p ++ [mkFut (next_id p) dur res]) (done p) (S (next_id p))).

Fixpoint split_finished (fs : list Future) : list (nat * InferResult) * list Future :=
  match fs with
  | [] => ([], [])
  | f :: fs' =>
      let (fin, still) := split_finished fs' in
      if remaining f <=? 1 then ((fid f, outcome f) :: fin, still)
      else (fin, mkFut (fid f) (pred (remaining f)) (outcome f) :: still)
  end.

Definition tick (p : Pool) : Pool :=
  let (fin, still) := split_finished (firstn (max_workers p) (pending p)) in
  mkPool (max_workers p) (still ++ skipn (max_workers p) (pending p)) (done p ++ fin) (next_id p).

Fixpoint ticks (n : nat) (p : Pool) : Pool :=
  match n with O => p | S n' => ticks n' (tick p) end.

Definition lookup_done (id : nat) (d : list (nat * InferResult)) : option InferResult :=
  match find (fun kv => Nat.eqb (fst kv) id) d with
  | Some (_, r) => Some r
  | None => None
  end.

(** [future.result(timeout=timeout)]: [None] is the [TimeoutError]. *)
Fixpoint wait_result (p : Pool) (id : nat) (timeout : nat) : option InferResult * Pool :=
  match lookup_done id (done p) with
  | Some r => (Some r, p)
  | None =>
      match timeout with
      | O => (None, p)
      | S t => wait_result (tick p) id t
      end
  end.

(** [run_async(task, image_bytes, timeout, **kwargs)]; [dur] is the number
    of ticks the submitted [run_inference] call takes. *)
Definition run_async (libs : Libs) (p : Pool) (task : string) (image_bytes : list Byte.byte)
  (kwargs : Kwargs) (dur timeout : nat) : InferResult * Pool :=
  let (id, p1) := executor_submit p dur (fst (run_inference libs task image_bytes kwargs)) in
  match wait_result p1 id timeout with
  | (Some r, p2) => (r, p2)
  | (None, p2) => (RFailure "Inference timeout"%string task, p2)
  end.

(** [timeout: int = 30]. *)
Definition default_timeout : nat := 30.

Definition run_async_default (libs : Libs) (p : Pool) (task : string)
  (image_bytes : list Byte.byte) (kwargs : Kwargs) (dur : nat) : InferResult * Pool :=
  run_async libs p task image_bytes kwargs dur default_timeout.

(** [np.argsort] on an array of at most 16 elements, on numpy's scalar
    (non-SIMD) quicksort path: that path sorts such arrays by insertion sort,
    which moves an element left only past strictly larger keys, so indices
    with equal keys keep their ascending order. *)
Fixpoint argsort_insert (probs : list Q) (i : nat) (sorted : list nat) : list nat :=
  match sorted with
  | [] => [i]
  | j :: rest =>
      if Qlt_le_dec (nth_q probs i) (nth_q probs j) then i :: j :: rest
      else j :: argsort_insert probs i rest
  end.

Definition argsort_small (probs : list Q) : list nat :=
  fold_left (fun acc i => argsort_insert probs i acc) (seq 0 (length probs)) [].

End Engine.

(* ------------------------------------------------------------------ *)
(** ** AnalyticsDB (core/db.py) and AnalyticsService (services/analytics.py) *)
Module AnalyticsDB.

(** The ['data'] dict of an [inference_runs] write with numeric timings,
    as the write path queues and inserts it (the autoincrement id and the
    timestamp are not modelled); [AnalyticsStats.Row] is the table as
    SQLite holds it for [get_stats]. *)
Record RunData := mkRun {
  run_task : string;
  run_model_path : string;
  inference_time_ms : Q;
  total_time_ms : Q;
  fps : Q;
  success : bool;
  error_message : option string;
  image_size_bytes : nat
}.

(** A queued write: [{'table': 'inference_runs', ...}] or
    [{'table': 'model_usage', ...}]. *)
Inductive QueueItem :=
| InferenceRunWrite (data : RunData)
| ModelUsageWrite (task model_path : string).

(** [queue.Queue(maxsize)]; [maxsize = 0] means unbounded. *)
Record Queue := mkQueue { maxsize : nat; items : list QueueItem }.

Definition qsize (q : Queue) : nat := length (items q).

(** [q.put(item, timeout=0.1)]: [None] is the [queue.Full] raised when a
    bounded queue stays full for the whole timeout (no consumer is modelled
    during the 0.1 s wait). An unbounded queue accepts at once. *)
Definition put_timeout (q : Queue) (item : QueueItem) : option Queue :=
  if (0 <? maxsize q) && (maxsize q <=? qsize q) then None
  else Some (mkQueue (maxsize q) (items q ++ [item])).

(** [self._write_queue = Queue()]. *)
Definition new_write_queue : Queue := mkQueue 0 [].

(** [timing.get(key, 0)]. *)
Definition timing_get (timing : list (string * Q)) (key : string) : Q :=
  match dict_get key timing with Some v => v | None => 0 end.

(** [log_inference]: drop when more than 1000 writes are queued, otherwise
    [put] with [except: pass]. *)
Definition log_inference (q : Queue) (task model_path : string) (timing : list (string * Q))
  (success : bool) (error_message : option string) (image_size : nat) : Queue :=
  if 1000 <? qsize q then q
  else
    let write_data :=
      InferenceRunWrite
        (mkRun task model_path (timing_get timing "inference_ms"%string)
           (timing_get timing "total_ms"%string) (timing_get timing "fps"%string)
           success error_message image_size) in
    match put_timeout q write_data with Some q' => q' | None => q end.

(** [log_model_usage]: [put] with [except: pass]. *)
Definition log_model_usage (q : Queue) (task model_path : string) : Queue :=
  match put_timeout q (ModelUsageWrite task model_path) with Some q' => q' | None => q end.

(** [AnalyticsService.log_inference_run]. *)
Definition log_inference_run (q : Queue) (task model_path : string) (timing : list (string * Q))
  (success : bool) (error_message : option string) (image_size : nat) : Queue :=
  let q := log_inference q task model_path timing success error_message image_size in
  if success then log_model_usage q task model_path else q.

(** *** The background writer *)

(** The two tables; rows are kept in insertion order. *)
Record DB := mkDB { inference_runs : list RunData; model_usage : list (string * string) }.

Definition insert_write (db : DB) (w : QueueItem) : DB :=
  match w with
  | InferenceRunWrite d => mkDB (inference_runs db ++ [d]) (model_usage db)
  | ModelUsageWrite t m => mkDB (inference_runs db) (model_usage db ++ [(t, m)])
  end.

(** [_execute_batch_write(writes)]: one [with sqlite3.connect(...)]
    transaction. [ok = false] is an exception anywhere in it: the
    transaction is rolled back and the error logged. *)
Definition _execute_batch_write (ok : bool) (writes : list QueueItem) (db : DB)
  : DB * list string :=
  if ok then (fold_left insert_write writes db, [])
  else (db, ["Batch write error"%string]).

(** The writer's view: the queued writes, the database, the log and a
    clock counting the seconds spent waiting in [get(timeout=1.0)]. *)
Record Writer := mkWriter { w_queue : list QueueItem; w_db : DB; w_log : list string; w_clock : nat }.

(** [writes.append(get(timeout=1.0))] then [get_nowait()] while
    [len(writes) < 100]; [None] is the [Empty] raised after the 1 s wait. *)
Definition get_batch (q : list QueueItem) : option (list QueueItem * list QueueItem) :=
  match q with
  | [] => None
  | w :: rest => Some (w :: firstn 99 rest, skipn 99 rest)
  end.

(** One iteration of the [while not self._stop_event.is_set()] loop of
    [_background_writer]; [ok] is the outcome of its batch write. *)
Definition writer_cycle (ok : bool) (st : Writer) : Writer :=
  match get_batch (w_queue st) with
  | None => mkWriter (w_queue st) (w_db st) (w_log st) (S (w_clock st))
  | Some (writes, rest) =>
      let (db', errs) := _execute_batch_write ok writes (w_db st) in
      mkWriter rest db' (w_log st ++ errs) (w_clock st)
  end.

(** Successive iterations with the given batch outcomes. *)
Fixpoint writer_run (oks : list bool) (st : Writer) : Writer :=
  match oks with
  | [] => st
  | ok :: oks' => writer_run oks' (writer_cycle ok st)
  end.

End AnalyticsDB.

(* ------------------------------------------------------------------ *)
(** ** AnalyticsDB.get_stats (core/db.py) over the stored table *)
Module AnalyticsStats.

(** *** Python [float] and SQLite [REAL]: IEEE 754 binary64 *)

Definition prec : Z := 53%Z.
Definition emax : Z := 1024%Z.
Definition double : Type := spec_float.

(** The double nearest to an integer (Python's [float(n)], C's [(double)n]). *)
Definition double_of_Z (n : Z) : double := binary_normalize prec emax n 0 false.

(** The double nearest to a rational, ties to even: Python's [int / int]
    (correctly rounded true division) and [float] of a decimal string. *)
Definition double_of_Q (q : Q) : double :=
  let round s n :=
    let '(m, e, l) := SFdiv_core_binary prec emax (Zpos n) 0 (Zpos (Qden q)) 0 in
    binary_round_aux prec emax s m e l in
  match Qnum q with
  | Z0 => S754_zero false
  | Zpos n => round false n
  | Zneg n => round true n
  end.

(** The exact value of a finite double. *)
Definition double_Q (x : double) : Q :=
  match x with
  | S754_finite s m e =>
      let v := match e with
               | Zpos p => inject_Z (Zpos m * Z.pow 2 (Zpos p))
               | Z0 => inject_Z (Zpos m)
               | Zneg p => Zpos m # Pos.pow 2 p
               end in
      if s then Qopp v else v
  | _ => 0%Q
  end.

(** Python's [round(x, 2)] on the exact value: to the nearest hundredth,
    halves to the even neighbour. *)
Definition py_round2 (x : Q) : Q :=
  let y := (x * 100)%Q in
  let f := Qfloor y in
  let n := match Qcompare (y - inject_Z f) (1 # 2) with
           | Lt => f
           | Gt => (f + 1)%Z
           | Eq => if Z.even f then f else (f + 1)%Z
           end in
  (inject_Z n / 100)%Q.

(** [float.__round__(x, 2)]: infinities, NaN and zeros are returned as
    they are; otherwise the exact value is rounded to two decimals (the
    [dtoa] string) and read back as the nearest double, a zero keeping
    the sign of [x]. *)
Definition float_round2 (x : double) : double :=
  match x with
  | S754_finite s _ _ =>
      let d := py_round2 (double_Q x) in
      if Qeq_bool d 0 then S754_zero s else double_of_Q d
  | _ => x
  end.

(** A Python number in the returned dict: an [int] or a [float]. *)
Inductive PyNum :=
| PyInt (n : Z)
| PyFloat (x : double).

(** [round(v, 2)]: an [int] is returned unchanged. *)
Definition round2 (v : PyNum) : PyNum :=
  match v with
  | PyInt n => PyInt n
  | PyFloat x => PyFloat (float_round2 x)
  end.

(** [value or 0] on a fetched [AVG]: [None] and [0.0] (of either sign)
    are falsy. *)
Definition or_zero (v : option double) : PyNum :=
  match v with
  | None => PyInt 0
  | Some (S754_zero _) => PyInt 0
  | Some x => PyFloat x
  end.

(** *** The [inference_runs] table as SQLite stores it *)

(** A value in a [REAL] column: [NULL] (Python [None]; NaN is stored as
    [NULL] too), a [REAL] (integers bound to a [REAL] column are converted),
    or a [TEXT] that does not look like a number, which the column's
    affinity leaves as text. *)
Inductive RealCell :=
| RNull
| RReal (x : double)
| RText (s : string).

(** The columns [get_stats] reads, in rowid order. [success] is whether
    the [BOOLEAN] column satisfies [success = 1] (Python [True] is stored
    as 1); the queries only read it through that test. *)
Record Row := mkRow {
  task : string;
  inference_time_ms : RealCell;
  fps : RealCell;
  success : bool
}.

(** SQLite's [col > 0]: [NULL] compares to nothing, a [REAL] compares
    numerically, and a [TEXT] value is greater than every number. *)
Definition gt_zero (v : RealCell) : bool :=
  match v with
  | RNull => false
  | RReal x => SFltb (S754_zero false) x
  | RText _ => true
  end.

Section Avg.

(** [sqlite3_value_double] of a [TEXT] value: its longest numeric prefix
    read as a double ([0.0] when there is none). *)
Variable text_real : string -> double.

(** Whether [sum()]/[avg()] use Kahan-Babuska-Neumaier compensated
    summation (SQLite 3.43 and later) or a plain running double sum
    (earlier versions). *)
Variable compensated : bool.

(** The running state of SQLite's [SumCtx] for a column whose values are
    all [REAL] or [TEXT] (no [INTEGER], so the integer sum stays 0). *)
Record SumCtx := mkSum { rSum : double; rErr : double; cnt : nat }.

(** [kahanBabuskaNeumaierStep]. *)
Definition kbn_step (p : SumCtx) (r : double) : SumCtx :=
  let s := rSum p in
  let t := SFadd prec emax s r in
  let err :=
    if SFltb (SFabs r) (SFabs s)
    then SFadd prec emax (SFsub prec emax s t) r
    else SFadd prec emax (SFsub prec emax r t) s in
  mkSum t (SFadd prec emax (rErr p) err) (cnt p).

(** [sumStep] on one value: [NULL] is skipped; a [REAL] or [TEXT] value
    counts and is added as [sqlite3_value_double]. *)
Definition sum_step (p : SumCtx) (v : RealCell) : SumCtx :=
  let add r :=
    let p' := if compensated then kbn_step p r
              else mkSum (SFadd prec emax (rSum p) r) (rErr p) (cnt p) in
    mkSum (rSum p') (rErr p') (S (cnt p)) in
  match v with
  | RNull => p
  | RReal x => add x
  | RText s => add (text_real s)
  end.

(** [sqlite3IsOverflow]: infinity or NaN. *)
Definition is_overflow (x : double) : bool :=
  match x with S754_infinity _ | S754_nan => true | _ => false end.

(** SQL [AVG(col)] ([avgFinalize]): [NULL] when no non-[NULL] value was
    seen, otherwise the (compensated) sum divided by the count. *)
Definition sql_avg (vs : list RealCell) : option double :=
  let p := fold_left sum_step vs (mkSum (S754_zero false) (S754_zero false) 0) in
  match cnt p with
  | O => None
  | S _ =>
      let r := if compensated && negb (is_overflow (rErr p))
               then SFadd prec emax (rSum p) (rErr p) else rSum p in
      Some (SFdiv prec emax r (double_of_Z (Z.of_nat (cnt p))))
  end.

(** *** [get_stats] *)

Record Stats := mkStats {
  total_runs : nat;
  success_rate : PyNum;
  avg_fps : PyNum;
  avg_inference_time_ms : PyNum;
  task_stats : list (string * (nat * PyNum))
}.

(** [WHERE success = 1]. *)
Definition successful (rows : list Row) : list Row := filter success rows.

(** [SELECT task, COUNT( * ), AVG(fps) ... WHERE success = 1 GROUP BY task]
    and the loop filling [task_stats[row[0]] = {'count': row[1],
    'avg_fps': row[2] or 0}]; the groups are listed in order of first
    appearance (SQL leaves the order open, the dict is read by key). *)
Definition group_by_task (rows : list Row) : list (string * (nat * PyNum)) :=
  map (fun t =>
         let g := filter (fun r => String.eqb (task r) t) rows in
         (t, (length g, or_zero (sql_avg (map fps g)))))
      (nodup string_dec (map task rows)).

(** [get_stats()] over the rows of [inference_runs]. *)
Definition get_stats (rows : list Row) : Stats :=
  let total_runs := length rows in
  let success_runs := length (successful rows) in
  let success_rate :=
    match total_runs with
    | O => PyInt 0
    | S _ => PyFloat (SFmul prec emax
                        (double_of_Q (Z.of_nat success_runs # Pos.of_nat total_runs))
                        (double_of_Z 100))
    end in
  let avg_fps :=
    or_zero (sql_avg (map fps (filter (fun r => success r && gt_zero (fps r)) rows))) in
  let avg_inference_time := or_zero (sql_avg (map inference_time_ms (successful rows))) in
  mkStats total_runs (round2 success_rate) (round2 avg_fps) (round2 avg_inference_time)
          (group_by_task (successful rows)).

End Avg.

End AnalyticsStats.

(* ------------------------------------------------------------------ *)
(** ** AnalyticsService.get_performance_metrics (services/analytics.py) *)
Module Service.
Import AnalyticsStats.

(** Python's [v < n] and [v > n] for a number and an [int] constant; the
    constants used (10, 30, 100, 500) are exact doubles, so comparing a
    [float] with them is a double comparison (false for NaN). *)
Definition py_lt_int (v : PyNum) (n : Z) : bool :=
  match v with PyInt m => (m <? n)%Z | PyFloat x => SFltb x (double_of_Z n) end.

Definition py_gt_int (v : PyNum) (n : Z) : bool :=
  match v with PyInt m => (n <? m)%Z | PyFloat x => SFltb (double_of_Z n) x end.

(** The returned dict without its constant [thresholds] entry
    (fast_fps 30, slow_fps 10, fast_inference_ms 100, slow_inference_ms 500). *)
Record PerfMetrics := mkPerf {
  grade : string;
  pm_avg_fps : PyNum;
  pm_avg_inference_time_ms : PyNum
}.

(** [get_performance_metrics()] over the rows of [inference_runs]. *)
Definition get_performance_metrics (text_real : string -> double) (compensated : bool)
  (rows : list Row) : PerfMetrics :=
  let stats := get_stats text_real compensated rows in
  let fast_fps_threshold := 30%Z in
  let slow_fps_threshold := 10%Z in
  let fast_inference_threshold := 100%Z in
  let slow_inference_threshold := 500%Z in
  let avg_fps := avg_fps stats in
  let avg_inference_time := avg_inference_time_ms stats in
  let performance_grade :=
    if py_lt_int avg_fps slow_fps_threshold
       || py_gt_int avg_inference_time slow_inference_threshold
    then "poor"%string
    else if py_lt_int avg_fps fast_fps_threshold
            || py_gt_int avg_inference_time fast_inference_threshold
    then "good"%string
    else "excellent"%string in
  mkPerf performance_grade avg_fps avg_inference_time.

End Service.

(* ------------------------------------------------------------------ *)
(** ** Preloading (core/model_registry.py, app factory) *)
Module Preload.
Import ModelRegistry.

(** [preload_models(tasks)]: [get_model(task)] for each task in order, then,
    when a model came back, a warmup [model.predict] on a 64x64 black image
    whose exception is logged and swallowed. [warmup_ok m] is whether that
    call returns; the second component lists the warmups as [(task, ok)]. *)
Fixpoint preload_models (env : Env) (warmup_ok : YOLO -> bool) (tasks : list Task)
  (st : Registry) : Registry * list (Task * bool) :=
  match tasks with
  | [] => (st, [])
  | task :: rest =>
      let (model, st1) := get_model env task st in
      let warm := match model with Some m => [(task, warmup_ok m)] | None => [] end in
      let (st2, log) := preload_models env warmup_ok rest st1 in
      (st2, warm ++ log)
  end.

(** The warmup thread of [create_app]. *)
Definition startup_tasks : list Task := ["detect"; "segment"; "classify"; "pose"]%string.

End Preload.

(* ------------------------------------------------------------------ *)
(** ** Pool size (core/inference.py, config.py) *)
Module Workers.

(** Python's [x or d] on an optional count: [None] and [0] are falsy. *)
Definition or_count (v : option nat) (d : nat) : nat :=
  match v with Some (S k) => S k | _ => d end.

(** [Config.THREAD_POOL_WORKERS = max(2, min(8, os.cpu_count() or 2))]. *)
Definition THREAD_POOL_WORKERS (cpu_count : option nat) : nat :=
  Nat.max 2 (Nat.min 8 (or_count cpu_count 2)).

(** [InferenceEngine.__init__]:
    [max_workers or max(2, min(8, os.cpu_count() or 2))]. *)
Definition engine_max_workers (max_workers cpu_count : option nat) : nat :=
  or_count max_workers (Nat.max 2 (Nat.min 8 (or_count cpu_count 2))).

(** The module-level [_inference_engine = InferenceEngine()]: an idle pool. *)
Definition global_engine_pool (cpu_count : option nat) : Engine.Pool :=
  Engine.mkPool (engine_max_workers None cpu_count) [] [] 0.

End Workers.

(* ------------------------------------------------------------------ *)
(** ** API routes (routes/api.py) *)
Module Api.
Import ModelRegistry Engine AnalyticsDB.

(** The [current_app.config] entries the routes read; [None] is an absent
    key, except for [MAX_CONTENT_LENGTH], which Flask's default config
    always holds: there [None] is its default value [None] (no limit), as
    opposed to the byte count [config.py] sets. Sizes are in bytes. *)
Record AppConfig := mkCfg {
  MAX_CONTENT_LENGTH : option N;
  ENABLE_ANALYTICS : option bool;
  MODEL_DETECT : option string;
  MODEL_SEGMENT : option string;
  MODEL_CLASSIFY : option string;
  MODEL_POSE : option string
}.

(** [current_app.config.get(key, default)]. *)
Definition config_get {A : Type} (v : option A) (dflt : A) : A :=
  match v with Some x => x | None => dflt end.

(** The [model_configs] dict built by [get_models], [process_image] and
    [log_analytics]. *)
Definition model_configs (cfg : AppConfig) : list (string * string) :=
  [("detect", config_get (MODEL_DETECT cfg) "models/weights/yolo11n.pt");
   ("segment", config_get (MODEL_SEGMENT cfg) "models/weights/yolo11n-seg.pt");
   ("classify", config_get (MODEL_CLASSIFY cfg) "models/weights/yolo11n-cls.pt");
   ("pose", config_get (MODEL_POSE cfg) "models/weights/yolo11n-pose.pt")]%string.

(** [model_configs.get(task, 'unknown')]. *)
Definition model_path_for (cfg : AppConfig) (task : string) : string :=
  match dict_get task (model_configs cfg) with Some p => p | None => "unknown"%string end.

(** The loop of [get_models]: [get_model(task)] per entry, in order, and
    [models[task] = {'path': path, 'loaded': model is not None, ...}]. *)
Fixpoint models_status (env : Env) (configs : list (string * string)) (st : Registry)
  : list (string * (string * bool)) * Registry :=
  match configs with
  | [] => ([], st)
  | (task, path) :: rest =>
      let (model, st1) := get_model env task st in
      let (models, st2) := models_status env rest st1 in
      ((task, (path, match model with Some _ => true | None => false end)) :: models, st2)
  end.

(** [GET /api/models]. *)
Definition get_models (cfg : AppConfig) (env : Env) (st : Registry)
  : list (string * (string * bool)) * Registry :=
  models_status env (model_configs cfg) st.

(** The uploaded [request.files['image']]. *)
Record Upload := mkUpload { filename : string; file_bytes : list Byte.byte }.

(** The parts of a [POST /api/process] request the route reads, with the
    request's [Content-Length] (the multipart body, which contains the
    uploaded file). *)
Record ProcessRequest := mkPReq {
  content_length : N;
  files_image : option Upload;
  form_model_type : option string
}.

(** The wall-clock readings of one [run_inference] call in ms, as its
    [timing] dict reports them. *)
Record Clock := mkClock { decode_ms : Q; inference_ms : Q; process_ms : Q; total_ms : Q }.

(** [result.get('timing', {})]: only a successful [run_inference] result
    has a [timing] entry, with these four keys. *)
Definition result_timing (clk : Clock) (r : InferResult) : list (string * Q) :=
  match r with
  | RSuccess _ _ =>
      [("decode_ms", decode_ms clk); ("inference_ms", inference_ms clk);
       ("process_ms", process_ms clk); ("total_ms", total_ms clk)]%string
  | RFailure _ _ => []
  end.

(** [result.get('success', False)]. *)
Definition result_success (r : InferResult) : bool :=
  match r with RSuccess _ _ => true | RFailure _ _ => false end.

(** [result.get('error')]. *)
Definition result_error (r : InferResult) : option string :=
  match r with RSuccess _ _ => None | RFailure e _ => Some e end.

(** A JSON response: an error with its status code, or [jsonify(result)]
    with status 200. *)
Inductive ProcessResponse :=
| PError (status : nat) (error : string)
| POk (result : InferResult).

Definition MiB : N := 1024 * 1024.

(** The route's [except Exception] handler. *)
Definition internal_error : ProcessResponse := PError 500 "Internal server error".

(** [POST /api/process]. [run_inference(task=..., image_bytes=...,
    timeout=30)] is [run_async] on the global engine's pool [p], with no
    extra keyword arguments; [dur] is the number of ticks the call takes and
    [clk] its timing readings. The analytics writes go to [q].
    The first access to [request.files] parses the body; when
    [MAX_CONTENT_LENGTH] is set and [Content-Length] exceeds it, Werkzeug
    raises [RequestEntityTooLarge] there, inside the route's [try], and the
    handler answers 500. With [MAX_CONTENT_LENGTH] left at [None],
    [file_size > max_size] raises [TypeError], also answered 500. *)
Definition process_image (cfg : AppConfig) (req : ProcessRequest) (libs : Libs) (p : Pool)
  (dur : nat) (clk : Clock) (q : Queue) : ProcessResponse * Pool * Queue :=
  let body_too_large :=
    match MAX_CONTENT_LENGTH cfg with
    | Some m => (m <? content_length req)%N
    | None => false
    end in
  if body_too_large then (internal_error, p, q) else
  match files_image req with
  | None => (PError 400 "No image file provided"%string, p, q)
  | Some file =>
      if String.eqb (filename file) "" then (PError 400 "No file selected"%string, p, q)
      else
        let file_size := length (file_bytes file) in
        match MAX_CONTENT_LENGTH cfg with
        | None => (internal_error, p, q)
        | Some max_size =>
        if (max_size <? N.of_nat file_size)%N then
          (PError 413 ("File too large. Maximum size: "
                       ++ nat_to_string (N.to_nat (max_size / MiB)) ++ "MB")%string, p, q)
        else
          let model_type := config_get (form_model_type req) "detect"%string in
          if negb (in_tasks model_type ["detect"; "segment"; "classify"; "pose"]%string) then
            (PError 400 "Invalid model type"%string, p, q)
          else
            let image_bytes := file_bytes file in
            let (result, p') := run_async libs p model_type image_bytes no_kwargs dur 30 in
            let q' :=
              if config_get (ENABLE_ANALYTICS cfg) false then
                log_inference_run q model_type (model_path_for cfg model_type)
                  (result_timing clk result) (result_success result) (result_error result)
                  file_size
              else q in
            (POk result, p', q')
        end
  end.

End Api.

(* ------------------------------------------------------------------ *)
(** ** Document search (core/chroma_integration.py) *)
Module Chroma.

(** The dict returned by [collection.query(query_texts=[query], ...)]:
    one list per query text; [None] is a [None] entry. Metadata dicts are
    kept as association lists of strings. *)
Record QueryResult := mkQR {
  qr_documents : option (list (list string));
  qr_distances : option (list (list Q));
  qr_metadatas : option (list (list (list (string * string))))
}.

(** A [ChromaIntegration] as [search_documents] sees it: whether
    [is_available()] holds, and [collection.query] ([None] when it raises). *)
Record Collection := mkColl {
  available : bool;
  query : string -> nat -> option QueryResult
}.

Record Document := mkDoc {
  content : string;
  distance : Q;
  metadata : list (string * string)
}.

(** [x[0][i] if x else default]: a falsy [x] ([None] or empty) gives the
    default; otherwise an out-of-range [i] is an [IndexError] ([None]). *)
Definition first_at {A : Type} (x : option (list (list A))) (i : nat) (dflt : A) : option A :=
  match x with
  | None | Some [] => Some dflt
  | Some (l0 :: _) => nth_error l0 i
  end.

(** The [for i, doc in enumerate(results['documents'][0])] loop;
    [None] is an exception raised inside it. *)
Fixpoint build_documents (res : QueryResult) (i : nat) (docs : list string)
  : option (list Document) :=
  match docs with
  | [] => Some []
  | doc :: docs' =>
      match first_at (qr_distances res) i 0%Q, first_at (qr_metadatas res) i [] with
      | Some d, Some m =>
          match build_documents res (S i) docs' with
          | Some rest => Some (mkDoc doc d m :: rest)
          | None => None
          end
      | _, _ => None
      end
  end.

(** [ChromaIntegration.search_documents(query, n_results)]: every
    exception is logged and turned into [[]]. *)
Definition search_documents (c : Collection) (q : string) (n_results : nat) : list Document :=
  if negb (available c) then []
  else
    match query c q n_results with
    | None => []
    | Some res =>
        match qr_documents res with
        | Some ((_ :: _) as docs :: _) =>
            match build_documents res 0 docs with
            | Some documents => documents
            | None => []
            end
        | _ => []
        end
    end.

End Chroma.

(* ================================================================== *)
(** * Proofs *)

(** ** Generic facts *)

Lemma dict_get_set_eq {V : Type} (k : string) (v : V) d :
  dict_get k (dict_set k v d) = Some v.
Proof.
  induction d as [|[k' v'] d IH]; simpl.
  - rewrite String.eqb_refl. reflexivity.
  - destruct (String.eqb k k') eqn:E; simpl.
    + rewrite String.eqb_refl. reflexivity.
    + rewrite E. exact IH.
Qed.

Lemma nth_error_list_set {A : Type} (l : list A) i j x :
  nth_error (list_set l i x) j =
  if Nat.eqb i j then (match nth_error l j with Some _ => Some x | None => None end)
  else nth_error l j.
Proof.
  revert i j. induction l as [|y l IH]; intros [|i] [|j]; simpl; auto.
  - destruct (Nat.eqb i j); reflexivity.
Qed.


Lemma nth_error_list_set_inv {A : Type} (l : list A) i j x y :
  nth_error (list_set l i x) j = Some y ->
  (i = j /\ y = x) \/ (i <> j /\ nth_error l j = Some y).
Proof.
  rewrite nth_error_list_set. destruct (Nat.eqb i j) eqn:E.
  - apply Nat.eqb_eq in E. destruct (nth_error l j); intros H; inversion H; auto.
  - apply Nat.eqb_neq in E. auto.
Qed.

Lemma length_list_set {A : Type} (l : list A) i x :
  length (list_set l i x) = length l.
Proof. revert i; induction l; intros [|i]; simpl; auto. Qed.

(** ** ModelRegistry *)
Module RegistryFacts.
Import ModelRegistry.

Lemma load_model_loads env task st :
  loads (_load_model env task st) = S (loads st).
Proof.
  unfold _load_model, YOLO_new, install; simpl.
  destruct (yolo_ok _ _ _); simpl; [reflexivity|].
  destruct (yolo_ok _ _ _); reflexivity.
Qed.

Lemma get_model_cached env task st h :
  dict_get task (_models st) = Some h -> get_model env task st = (Some h, st).
Proof. intros H. unfold get_model. rewrite H. reflexivity. Qed.

Lemma get_model_fresh env task st :
  dict_get task (_models st) = None ->
  get_model env task st =
  (dict_get task (_models (_load_model env task st)), _load_model env task st).
Proof. intros H. unfold get_model. rewrite H. reflexivity. Qed.

Lemma repeat_no_returned N i r :
  nth_error (repeat Idle N) i <> Some (Returned r).
Proof.
  intros H. apply nth_error_In, repeat_spec in H. discriminate.
Qed.

(** Invariant of the lock-serialised callers when the first load installs [h]. *)
Definition inv_installed (task : Task) (r0 : Registry) N (h : YOLO) (s : Sys) : Prop :=
  length (threads s) = N /\
  ((reg s = r0 /\ forall i r, nth_error (threads s) i <> Some (Returned r)) \/
   (loads (reg s) = 1 /\ dict_get task (_models (reg s)) = Some h /\
    forall i r, nth_error (threads s) i = Some (Returned r) -> r = Some h)).

Lemma inv_installed_step env task r0 N h s s' :
  loads r0 = 0 -> dict_get task (_models r0) = None ->
  fst (get_model env task r0) = Some h ->
  inv_installed task r0 N h s -> step env task s s' -> inv_installed task r0 N h s'.
Proof.
  intros H0 Hfresh Hok [Hlen Hinv] Hst.
  destruct Hst as [s i Hi Hl | s i Hi Hl]; unfold inv_installed; simpl;
    rewrite length_list_set; split; auto.
  - destruct Hinv as [[Hr Hno] | [Hld [Hget Hall]]].
    + left. split; auto. intros j r Hj.
      apply nth_error_list_set_inv in Hj as [[_ E] | [_ Hj]]; [discriminate | eapply Hno; eauto].
    + right. repeat split; auto. intros j r Hj.
      apply nth_error_list_set_inv in Hj as [[_ E] | [_ Hj]]; [discriminate | eauto].
  - right. destruct Hinv as [[Hr Hno] | [Hld [Hget Hall]]].
    + rewrite Hr. rewrite get_model_fresh in Hok |- * by exact Hfresh. simpl in Hok |- *.
      repeat split.
      * rewrite load_model_loads, H0. reflexivity.
      * exact Hok.
      * intros j r Hj. apply nth_error_list_set_inv in Hj as [[_ E] | [_ Hj]].
        -- inversion E. exact Hok.
        -- exfalso. eapply Hno; eauto.
    + rewrite (get_model_cached env task (reg s) h Hget). simpl. repeat split; auto.
      intros j r Hj. apply nth_error_list_set_inv in Hj as [[_ E] | [_ Hj]].
      * inversion E. reflexivity.
      * eauto.
Qed.

Lemma inv_installed_reach env task r0 N h s s' :
  loads r0 = 0 -> dict_get task (_models r0) = None ->
  fst (get_model env task r0) = Some h ->
  inv_installed task r0 N h s -> reachable env task s s' ->
  inv_installed task r0 N h s'.
Proof.
  intros H0 Hf Hok Hs Hr. induction Hr; auto.
  apply IHHr. eapply inv_installed_step; eauto.
Qed.

Fixpoint count_returned (l : list Pc) : nat :=
  match l with
  | [] => 0
  | Returned _ :: l' => S (count_returned l')
  | _ :: l' => count_returned l'
  end.

Lemma count_returned_set_InCS l i :
  nth_error l i = Some Idle -> count_returned (list_set l i InCS) = count_returned l.
Proof.
  revert i; induction l as [|x l IH]; intros [|i] H; simpl in *; try discriminate.
  - inversion H; reflexivity.
  - rewrite (IH i H). reflexivity.
Qed.

Lemma count_returned_set_Returned l i r :
  nth_error l i = Some InCS -> count_returned (list_set l i (Returned r)) = S (count_returned l).
Proof.
  revert i; induction l as [|x l IH]; intros [|i] H; simpl in *; try discriminate.
  - inversion H; reflexivity.
  - rewrite (IH i H). destruct x; reflexivity.
Qed.

Lemma count_returned_repeat N : count_returned (repeat Idle N) = 0.
Proof. induction N; simpl; auto. Qed.

Lemma load_model_all_fail env task st :
  (forall n p, yolo_ok env n p = false) ->
  _models (_load_model env task st) = _models st /\
  loads (_load_model env task st) = S (loads st).
Proof.
  intros Hf. unfold _load_model, YOLO_new; simpl. rewrite !Hf. simpl. auto.
Qed.

(** Invariant when every [YOLO(...)] call raises: nothing is ever installed
    and every caller that returned did its own load. *)
Definition inv_failing (r0 : Registry) (s : Sys) : Prop :=
  _models (reg s) = _models r0 /\
  loads (reg s) = count_returned (threads s) /\
  forall i r, nth_error (threads s) i = Some (Returned r) -> r = None.

Lemma inv_failing_step env task r0 s s' :
  (forall n p, yolo_ok env n p = false) -> dict_get task (_models r0) = None ->
  inv_failing r0 s -> step env task s s' -> inv_failing r0 s'.
Proof.
  intros Hf Hfresh [Hm [Hl Hall]] Hst.
  destruct Hst as [s i Hi Hlk | s i Hi Hlk]; unfold inv_failing; cbn [threads reg lock].
  - rewrite count_returned_set_InCS by exact Hi. repeat split; auto.
    intros j r Hj. apply nth_error_list_set_inv in Hj as [[_ E] | [_ Hj]]; [discriminate | eauto].
  - assert (Hn : dict_get task (_models (reg s)) = None) by (rewrite Hm; exact Hfresh).
    rewrite get_model_fresh by exact Hn. cbn [fst snd threads reg lock].
    destruct (load_model_all_fail env task (reg s) Hf) as [Hm' Hl'].
    rewrite Hm', count_returned_set_Returned by exact Hi. repeat split.
    + exact Hm.
    + rewrite Hl', Hl. reflexivity.
    + intros j r Hj. apply nth_error_list_set_inv in Hj as [[_ E] | [_ Hj]].
      * injection E as E. rewrite E. exact Hn.
      * eauto.
Qed.

Lemma inv_failing_reach env task r0 s s' :
  (forall n p, yolo_ok env n p = false) -> dict_get task (_models r0) = None ->
  inv_failing r0 s -> reachable env task s s' -> inv_failing r0 s'.
Proof.
  intros Hf Hfresh Hs Hr. induction Hr; auto.
  apply IHHr. eapply inv_failing_step; eauto.
Qed.

(** Concrete environments for witnesses and counterexamples. *)
Definition env_all_fail : Env := mkEnv (fun _ => None) (fun _ => false) (fun _ _ => false).
Definition env_all_ok : Env := mkEnv (fun _ => None) (fun _ => false) (fun _ _ => true).
Definition r_empty : Registry := mkRegistry [] [] 0.






End RegistryFacts.

(** ** InferenceEngine *)
Module EngineFacts.
Import ModelRegistry Engine.

(** C6: every array [_decode_image] returns is 3-channel RGB; it fails
    exactly on the bytes that neither PIL nor OpenCV can decode; and on
    such bytes [run_inference] returns the decode failure after the decode
    stage alone, so the model is never fetched or run and no
    postprocessing happens. *)
Theorem decode_stage_normalises_and_fails_early libs task image_bytes kwargs :
  (forall arr, _decode_image libs image_bytes = Some arr ->
     arr_c arr = 3 /\ arr_order arr = OrdRGB) /\
  (_decode_image libs image_bytes = None <->
     pil_open libs image_bytes = None /\ cv2_imdecode libs image_bytes = None) /\
  (_decode_image libs image_bytes = None ->
     run_inference libs task image_bytes kwargs =
       (RFailure "Failed to decode image"%string task, [EvDecode])).
Proof.
  unfold _decode_image. split; [|split].
  - intros arr H.
    destruct (pil_open libs image_bytes) as [im|].
    + injection H as <-. destruct (mode_eqb (pil_mode im) MRGB) eqn:E.
      * assert (Hm : pil_mode im = MRGB) by (destruct (pil_mode im); now inversion E).
        unfold np_array. rewrite Hm. auto.
      * auto.
    + destruct (cv2_imdecode libs image_bytes) as [[h w]|]; [|discriminate].
      injection H as <-. auto.
  - destruct (pil_open libs image_bytes); [split; [discriminate|intros [? _]; discriminate]|].
    destruct (cv2_imdecode libs image_bytes) as [[h w]|];
      split; intros H; try discriminate; try (destruct H; discriminate); auto.
  - intros H. unfold run_inference, _decode_image. rewrite H. reflexivity.
Qed.

(** A run in which decoding and the model lookup succeed. *)
Definition libs_demo : Libs :=
  mkLibs (fun _ => Some (mkPil MRGB 100 100)) (fun _ => None)
         (fun t => Some (mkYOLO t 0)) (fun _ _ _ _ => inl []) (fun _ => []).

(** C8 (counterexample): with decoding and the model lookup succeeding,
    [imgsz=-5] reaches [model.predict] unchanged. *)
Lemma C8_negative_imgsz_reaches_predict :
  In (EvPredict (-5)%Z (25 # 100))
     (snd (run_inference libs_demo "detect"%string [] (mkKw (Some (-5)%Z) None))) /\
  ~ (0 < -5)%Z.
Proof. split; [simpl; auto | lia]. Qed.

(** C8 (amended): once decoding and the model lookup succeed,
    [model.predict] is called with [imgsz] and [conf] taken from the keyword
    arguments unchanged, defaulting to 640 and 0.25 when absent; no other
    predict call happens. *)
Theorem run_inference_predict_options libs task image_bytes kwargs arr m
  (Hdec : _decode_image libs image_bytes = Some arr)
  (Hmodel : lib_get_model libs task = Some m) :
  firstn 3 (snd (run_inference libs task image_bytes kwargs)) =
    [EvDecode; EvGetModel;
     EvPredict (kw_get (kw_imgsz kwargs) 640%Z) (kw_get (kw_conf kwargs) (25 # 100))] /\
  (forall i c, In (EvPredict i c) (snd (run_inference libs task image_bytes kwargs)) ->
     i = kw_get (kw_imgsz kwargs) 640%Z /\ c = kw_get (kw_conf kwargs) (25 # 100)) /\
  (kw_imgsz kwargs = None -> kw_get (kw_imgsz kwargs) 640%Z = 640%Z) /\
  (kw_conf kwargs = None -> kw_get (kw_conf kwargs) (25 # 100) = 25 # 100).
Proof.
  unfold run_inference. rewrite Hdec, Hmodel.
  split; [|split; [|split]].
  - destruct (predict _ _ _ _ _); [destruct (_process_results _ _ _)|]; reflexivity.
  - intros i c Hin.
    destruct (predict _ _ _ _ _); [destruct (_process_results _ _ _)|];
      simpl in Hin; intuition congruence.
  - intros E; rewrite E; reflexivity.
  - intros E; rewrite E; reflexivity.
Qed.

Lemma run_inference_predict_options_witness :
  (_decode_image libs_demo [] = Some (mkArr 100 100 3 OrdRGB) /\
   lib_get_model libs_demo "detect"%string = Some (mkYOLO "detect"%string 0)) /\
  (firstn 3 (snd (run_inference libs_demo "detect"%string [] no_kwargs)) =
     [EvDecode; EvGetModel;
      EvPredict (kw_get (kw_imgsz no_kwargs) 640%Z) (kw_get (kw_conf no_kwargs) (25 # 100))] /\
   (forall i c, In (EvPredict i c) (snd (run_inference libs_demo "detect"%string [] no_kwargs)) ->
      i = kw_get (kw_imgsz no_kwargs) 640%Z /\ c = kw_get (kw_conf no_kwargs) (25 # 100)) /\
   (kw_imgsz no_kwargs = None -> kw_get (kw_imgsz no_kwargs) 640%Z = 640%Z) /\
   (kw_conf no_kwargs = None -> kw_get (kw_conf no_kwargs) (25 # 100) = 25 # 100)).
Proof.
  split; [split; reflexivity|].
  apply (run_inference_predict_options libs_demo "detect"%string [] no_kwargs
           (mkArr 100 100 3 OrdRGB) (mkYOLO "detect"%string 0)); reflexivity.
Defined.

(** *** Facts about the pool *)

Definition work (fs : list Future) : nat :=
  fold_right (fun f acc => S (remaining f) + acc) 0 fs.

Definition key (f : Future) : nat * InferResult := (fid f, outcome f).

Lemma work_app l1 l2 : work (l1 ++ l2) = work l1 + work l2.
Proof. induction l1; simpl; auto. rewrite IHl1. lia. Qed.

Lemma split_finished_work l :
  work (snd (split_finished l)) + length l <= work l.
Proof.
  induction l as [|f l IH]; simpl; auto.
  destruct (split_finished l) as [fin still] eqn:E. simpl in IH.
  destruct (remaining f <=? 1) eqn:R; simpl.
  - lia.
  - apply Nat.leb_gt in R. lia.
Qed.

Lemma split_finished_keys l k :
  In k (map key l) -> In k (fst (split_finished l)) \/ In k (map key (snd (split_finished l))).
Proof.
  induction l as [|f l IH]; simpl; [tauto|].
  destruct (split_finished l) as [fin still] eqn:E. simpl in IH.
  intros [Hk | Hk].
  - destruct (remaining f <=? 1); simpl; subst k; unfold key; auto.
  - destruct (IH Hk); destruct (remaining f <=? 1); simpl; auto.
Qed.

Lemma tick_workers p : max_workers (tick p) = max_workers p.
Proof. unfold tick. destruct (split_finished _). reflexivity. Qed.

Lemma tick_nil p : pending p = [] -> pending (tick p) = [].
Proof.
  intros H. unfold tick. rewrite H. rewrite firstn_nil. simpl. rewrite skipn_nil. reflexivity.
Qed.

Lemma tick_work p :
  0 < max_workers p -> pending p <> [] -> work (pending (tick p)) < work (pending p).
Proof.
  intros Hw Hne. unfold tick.
  pose proof (split_finished_work (firstn (max_workers p) (pending p))) as Hs.
  destruct (split_finished (firstn (max_workers p) (pending p))) as [fin still] eqn:E.
  simpl in *. rewrite work_app.
  replace (work (pending p))
    with (work (firstn (max_workers p) (pending p) ++ skipn (max_workers p) (pending p)))
    by (rewrite firstn_skipn; reflexivity).
  rewrite work_app.
  assert (0 < length (firstn (max_workers p) (pending p))).
  { rewrite length_firstn. destruct (pending p); [congruence|]. simpl. lia. }
  lia.
Qed.

Lemma ticks_drain n p :
  0 < max_workers p -> work (pending p) <= n -> pending (ticks n p) = [].
Proof.
  revert p; induction n as [|n IH]; intros p Hw Hn; simpl.
  - destruct (pending p) as [|f l]; auto. simpl in Hn. lia.
  - apply IH; rewrite ?tick_workers; auto.
    destruct (pending p) as [|f l] eqn:E.
    + rewrite tick_nil by exact E. simpl. lia.
    + pose proof (tick_work p Hw ltac:(congruence)). rewrite E in *. lia.
Qed.

(** A submitted call is either still pending or has its result recorded. *)
Definition tracked (k : nat * InferResult) (p : Pool) : Prop :=
  In k (map key (pending p)) \/ In k (done p).

Lemma tick_tracked k p : tracked k p -> tracked k (tick p).
Proof.
  unfold tracked, tick.
  pose proof (split_finished_keys (firstn (max_workers p) (pending p)) k) as Hs.
  destruct (split_finished (firstn (max_workers p) (pending p))) as [fin still] eqn:E.
  simpl in *. rewrite map_app, !in_app_iff.
  intros [Hk | Hk]; [|auto].
  rewrite <- (firstn_skipn (max_workers p) (pending p)), map_app, in_app_iff in Hk.
  destruct Hk as [Hk | Hk]; [destruct (Hs Hk); auto | auto].
Qed.

Lemma ticks_tracked n k p : tracked k p -> tracked k (ticks n p).
Proof. revert p; induction n; simpl; auto using tick_tracked. Qed.

Lemma ticks_workers n p : max_workers (ticks n p) = max_workers p.
Proof. revert p; induction n; intros p; simpl; auto. rewrite IHn. apply tick_workers. Qed.

Lemma wait_tracked p id t k : tracked k p -> tracked k (snd (wait_result p id t)).
Proof.
  revert p; induction t; intros p H; simpl;
    destruct (lookup_done id (done p)); simpl; auto using tick_tracked.
Qed.

Lemma wait_none p id t :
  fst (wait_result p id t) = None -> lookup_done id (done (snd (wait_result p id t))) = None.
Proof.
  revert p; induction t; intros p; simpl;
    destruct (lookup_done id (done p)) eqn:E; simpl; auto; discriminate.
Qed.

Lemma lookup_done_none id r d : lookup_done id d = None -> ~ In (id, r) d.
Proof.
  unfold lookup_done. intros H Hin.
  destruct (find (fun kv => Nat.eqb (fst kv) id) d) as [[? ?]|] eqn:E; [discriminate|].
  eapply find_none in E; [|exact Hin]. simpl in E. rewrite Nat.eqb_refl in E. discriminate.
Qed.

Lemma wait_workers p id t : max_workers (snd (wait_result p id t)) = max_workers p.
Proof.
  revert p; induction t; intros p; simpl; destruct (lookup_done id (done p)); simpl; auto.
  rewrite IHt. apply tick_workers.
Qed.

(** C2: when the submitted [run_inference] call has not completed within
    [timeout] ticks, [run_async] returns the [Inference timeout] failure for
    the task; the call is not cancelled but still pending in the pool, and
    the pool runs it to completion, recording its result where no caller
    reads it. The timeout defaults to 30. *)
Theorem run_async_timeout_runs_to_completion libs p task image_bytes kwargs dur timeout
  (Hw : 0 < max_workers p)
  (Hlate : fst (wait_result
                  (snd (executor_submit p dur (fst (run_inference libs task image_bytes kwargs))))
                  (next_id p) timeout) = None) :
  fst (run_async libs p task image_bytes kwargs dur timeout) =
    RFailure "Inference timeout"%string task /\
  In (next_id p, fst (run_inference libs task image_bytes kwargs))
     (map key (pending (snd (run_async libs p task image_bytes kwargs dur timeout)))) /\
  (forall n, work (pending (snd (run_async libs p task image_bytes kwargs dur timeout))) <= n ->
     In (next_id p, fst (run_inference libs task image_bytes kwargs))
        (done (ticks n (snd (run_async libs p task image_bytes kwargs dur timeout))))) /\
  run_async_default libs p task image_bytes kwargs dur =
    run_async libs p task image_bytes kwargs dur 30.
Proof.
  set (res := fst (run_inference libs task image_bytes kwargs)) in *.
  remember (snd (executor_submit p dur res)) as p1 eqn:Hp1.
  assert (Hra : run_async libs p task image_bytes kwargs dur timeout =
                (RFailure "Inference timeout"%string task, snd (wait_result p1 (next_id p) timeout))).
  { unfold run_async. fold res.
    replace (executor_submit p dur res) with (next_id p, p1) by (rewrite Hp1; reflexivity).
    destruct (wait_result p1 (next_id p) timeout) as [[r|] p2]; simpl in Hlate |- *;
      congruence. }
  assert (Ht1 : tracked (next_id p, res) p1).
  { left. rewrite Hp1. unfold executor_submit; simpl. rewrite map_app, in_app_iff.
    right. left. reflexivity. }
  pose proof (wait_tracked p1 (next_id p) timeout _ Ht1) as Ht2.
  pose proof (lookup_done_none _ res _ (wait_none p1 (next_id p) timeout Hlate)) as Hnd.
  rewrite Hra. simpl. split; [reflexivity|]. split; [|split; [|reflexivity]].
  - destruct Ht2; [assumption|contradiction].
  - intros n Hn.
    set (p2 := snd (wait_result p1 (next_id p) timeout)) in *.
    assert (Hw2 : 0 < max_workers p2)
      by (unfold p2; rewrite wait_workers, Hp1; exact Hw).
    destruct (ticks_tracked n _ _ Ht2) as [Hk | Hk]; [|exact Hk].
    rewrite (ticks_drain n p2 Hw2 Hn) in Hk. contradiction.
Qed.

(** *** Classification postprocessing *)

Lemma StronglySorted_snoc {A : Type} (R : A -> A -> Prop) l a :
  StronglySorted R l -> Forall (fun x => R x a) l -> StronglySorted R (l ++ [a]).
Proof.
  induction l as [|x l IH]; simpl; intros Hs Hf.
  - repeat constructor.
  - inversion Hs; subst. inversion Hf; subst. constructor.
    + apply IH; auto.
    + apply Forall_app. split; auto.
Qed.

Lemma StronglySorted_rev {A : Type} (R : A -> A -> Prop) l :
  StronglySorted R l -> StronglySorted (fun x y => R y x) (rev l).
Proof.
  induction l as [|a l IH]; simpl; intros Hs; [constructor|].
  inversion Hs; subst. apply StronglySorted_snoc; auto.
  apply Forall_rev. assumption.
Qed.

Lemma StronglySorted_map {A B : Type} (R : B -> B -> Prop) (f : A -> B) l :
  StronglySorted (fun x y => R (f x) (f y)) l -> StronglySorted R (map f l).
Proof.
  induction l as [|a l IH]; simpl; intros Hs; constructor; inversion Hs; subst; auto.
  apply Forall_map. assumption.
Qed.

Lemma StronglySorted_app_cross {A : Type} (R : A -> A -> Prop) l1 l2 x y :
  StronglySorted R (l1 ++ l2) -> In x l1 -> In y l2 -> R x y.
Proof.
  induction l1 as [|a l1 IH]; simpl; [tauto|].
  intros Hs [<- | Hx] Hy; inversion Hs; subst.
  - eapply Forall_forall; eauto. apply in_or_app; auto.
  - eauto.
Qed.

Lemma StronglySorted_skipn {A : Type} (R : A -> A -> Prop) n l :
  StronglySorted R l -> StronglySorted R (skipn n l).
Proof.
  revert l; induction n; intros [|a l] Hs; simpl; auto.
  inversion Hs; auto.
Qed.

(** The tie rule of the code: equal probabilities are listed higher id first. *)
Definition ties_higher_id_first (ps : list ClassPred) : Prop :=
  forall i j a b, i < j -> nth_error ps i = Some a -> nth_error ps j = Some b ->
    Qeq (confidence a) (confidence b) -> class_id b < class_id a.

(** The order of a stable ascending argsort: by probability, ties by index. *)
Definition stable_before (probs : list Q) (i j : nat) : Prop :=
  Qlt (nth_q probs i) (nth_q probs j) \/ (Qeq (nth_q probs i) (nth_q probs j) /\ i < j).

Lemma stable_before_trans probs x y z :
  stable_before probs x y -> stable_before probs y z -> stable_before probs x z.
Proof.
  unfold stable_before. intros [H1|[H1 H1']] [H2|[H2 H2']].
  - left. eapply Qlt_trans; eauto.
  - left. rewrite <- H2. exact H1.
  - left. rewrite H1. exact H2.
  - right. split; [rewrite H1; exact H2|lia].
Qed.

Lemma StronglySorted_nth_error {A : Type} (R : A -> A -> Prop) l i j x y :
  StronglySorted R l -> i < j -> nth_error l i = Some x -> nth_error l j = Some y -> R x y.
Proof.
  revert i j; induction l as [|a l IH]; intros i j Hs Hij Hi Hj;
    [destruct i; discriminate|].
  inversion Hs as [|? ? Hs' Hf]; subst.
  destruct i as [|i], j as [|j]; try lia; simpl in Hi, Hj.
  - injection Hi as <-. eapply Forall_forall; [exact Hf|]. eapply nth_error_In; eauto.
  - apply (IH i j); auto. lia.
Qed.

Lemma argsort_insert_In probs i l x :
  In x (argsort_insert probs i l) <-> x = i \/ In x l.
Proof.
  induction l as [|j l IH]; simpl; [intuition (subst; auto)|].
  destruct (Qlt_le_dec (nth_q probs i) (nth_q probs j)); simpl; [intuition (subst; auto)|].
  rewrite IH. intuition (subst; auto).
Qed.

Lemma argsort_insert_sorted probs i l :
  Sorted (stable_before probs) l -> (forall x, In x l -> x < i) ->
  Sorted (stable_before probs) (argsort_insert probs i l).
Proof.
  induction l as [|j l IH]; intros Hs Hlt; simpl; [repeat constructor|].
  assert (Hji : j < i) by (apply Hlt; left; reflexivity).
  inversion Hs as [|? ? Hs' Hhd]; subst.
  destruct (Qlt_le_dec (nth_q probs i) (nth_q probs j)) as [Hq|Hq].
  - constructor; [exact Hs|]. constructor. left. exact Hq.
  - assert (Rji : stable_before probs j i).
    { unfold stable_before. apply Qle_lt_or_eq in Hq as [Hq|Hq]; [left; exact Hq|].
      right. split; [exact Hq|exact Hji]. }
    constructor.
    + apply IH; [exact Hs'|]. intros x Hx. apply Hlt. right. exact Hx.
    + destruct l as [|k l]; simpl; [constructor; exact Rji|].
      destruct (Qlt_le_dec (nth_q probs i) (nth_q probs k)); constructor; [exact Rji|].
      inversion Hhd; assumption.
Qed.

(** numpy's scalar argsort is stable: ties come out in ascending index. *)
Lemma argsort_small_stable probs : Sorted (stable_before probs) (argsort_small probs).
Proof.
  unfold argsort_small.
  assert (H : forall n s acc, Sorted (stable_before probs) acc -> (forall x, In x acc -> x < s) ->
            Sorted (stable_before probs)
              (fold_left (fun acc i => argsort_insert probs i acc) (seq s n) acc)).
  { induction n as [|n IH]; intros s acc Hs Hlt; simpl; [exact Hs|].
    apply IH.
    - apply argsort_insert_sorted; assumption.
    - intros x Hx. apply argsort_insert_In in Hx as [->|Hx]; [lia|]. specialize (Hlt x Hx). lia. }
  apply H; [constructor|intros x []].
Qed.

(** C7 (amended): given the contract of [np.argsort] (a permutation of the
    class indices, sorted by ascending probability), classification over at
    least five classes emits exactly five predictions, in descending
    confidence, for five distinct classes, each with its id, its
    probability and its name from [names] (or [class_<id>]), and no class
    left out has a higher probability than one emitted. Ties go higher id
    first whenever the argsort is stable (ties in ascending index), in
    particular on numpy's insertion-sort path for small outputs
    ([argsort_small]). *)
Theorem classify_top5 libs probs names
  (Hperm : Permutation (np_argsort libs probs) (seq 0 (length probs)))
  (Hsort : Sorted (fun i j => Qle (nth_q probs i) (nth_q probs j)) (np_argsort libs probs))
  (Hlen : 5 <= length probs) :
  let preds := classify_predictions libs probs names in
  (forall r rs, r_probs r = Some probs -> r_names r = Some names ->
     exists o, _process_results libs (r :: rs) "classify"%string = inl o /\
               o_predictions o = Some preds) /\
  length preds = 5 /\
  StronglySorted (fun a b => Qle (confidence b) (confidence a)) preds /\
  NoDup (map class_id preds) /\
  (forall a, In a preds ->
     class_id a < length probs /\ confidence a = nth_q probs (class_id a) /\
     class_name a = names_get names (class_id a) ("class_" ++ nat_to_string (class_id a))%string) /\
  (forall a j, In a preds -> j < length probs -> ~ In j (map class_id preds) ->
     Qle (nth_q probs j) (confidence a)) /\
  (Sorted (stable_before probs) (np_argsort libs probs) -> ties_higher_id_first preds) /\
  (np_argsort libs probs = argsort_small probs -> ties_higher_id_first preds).
Proof.
  intros preds.
  set (order := np_argsort libs probs) in *.
  assert (Hn : length order = length probs)
    by (rewrite (Permutation_length Hperm), length_seq; reflexivity).
  assert (Hss : StronglySorted (fun i j => Qle (nth_q probs i) (nth_q probs j)) order).
  { apply Sorted_StronglySorted; [intros x y z; apply Qle_trans | exact Hsort]. }
  set (k := length order - 5) in *.
  assert (Hsplit : order = firstn k order ++ skipn k order) by (symmetry; apply firstn_skipn).
  assert (Hids : map class_id preds = rev (skipn k order)).
  { unfold preds, classify_predictions, top5_idx. fold order. fold k.
    rewrite map_map. simpl. apply map_id. }
  assert (Hin_order : forall j, In j order <-> j < length probs).
  { intros j. split; intros H.
    - apply (Permutation_in _ Hperm), in_seq in H. lia.
    - apply (Permutation_in _ (Permutation_sym Hperm)), in_seq. lia. }
  assert (Hties : Sorted (stable_before probs) order -> ties_higher_id_first preds).
  { intros Hst i j a b Hij Ha Hb Heq.
    assert (Hss' : StronglySorted (stable_before probs) order).
    { apply Sorted_StronglySorted; [intros x y z; apply stable_before_trans | exact Hst]. }
    assert (Hpr : StronglySorted (fun a b => stable_before probs (class_id b) (class_id a)) preds).
    { unfold preds, classify_predictions, top5_idx. fold order. fold k.
      apply StronglySorted_map. simpl.
      apply (StronglySorted_rev (stable_before probs)).
      apply StronglySorted_skipn. exact Hss'. }
    assert (Hconf : forall c, In c preds -> confidence c = nth_q probs (class_id c)).
    { intros c Hc. unfold preds, classify_predictions, top5_idx in Hc. fold order in Hc.
      apply in_map_iff in Hc as [idx [<- _]]. reflexivity. }
    pose proof (StronglySorted_nth_error _ _ _ _ _ _ Hpr Hij Ha Hb) as [Hlt|[_ Hid]];
      [|exact Hid].
    rewrite (Hconf a (nth_error_In _ _ Ha)), (Hconf b (nth_error_In _ _ Hb)) in Heq.
    rewrite Heq in Hlt. apply Qlt_irrefl in Hlt. contradiction. }
  split; [|split; [|split; [|split; [|split; [|split; [|split]]]]]].
  - intros r rs Hp Hnm. unfold _process_results. cbn -[classify_predictions].
    rewrite Hp, Hnm. eexists. split; [reflexivity|]. reflexivity.
  - unfold preds, classify_predictions, top5_idx. fold order. fold k.
    rewrite length_map, length_rev, length_skipn. unfold k. lia.
  - unfold preds, classify_predictions, top5_idx. fold order. fold k.
    apply StronglySorted_map. simpl.
    apply (StronglySorted_rev (fun i j => Qle (nth_q probs i) (nth_q probs j))).
    apply StronglySorted_skipn. exact Hss.
  - rewrite Hids. apply NoDup_rev.
    apply (NoDup_app_remove_l (firstn k order)). rewrite <- Hsplit.
    apply (Permutation_NoDup (Permutation_sym Hperm)), seq_NoDup.
  - intros a Ha.
    assert (Hid : In (class_id a) (map class_id preds)) by (apply in_map; exact Ha).
    rewrite Hids, <- in_rev in Hid.
    unfold preds, classify_predictions, top5_idx in Ha. fold order in Ha. fold k in Ha.
    apply in_map_iff in Ha as [idx [<- _]]. simpl in *.
    split; [|split; reflexivity].
    apply Hin_order. rewrite Hsplit. apply in_or_app. right. exact Hid.
  - intros a j Ha Hj Hnot.
    assert (Hid : In (class_id a) (map class_id preds)) by (apply in_map; exact Ha).
    rewrite Hids, <- in_rev in Hid. rewrite Hids, <- in_rev in Hnot.
    assert (Hjo : In j order) by (apply Hin_order; exact Hj).
    rewrite Hsplit in Hjo. apply in_app_or in Hjo as [Hjo | Hjo]; [|contradiction].
    assert (Hc : confidence a = nth_q probs (class_id a)).
    { unfold preds, classify_predictions, top5_idx in Ha. fold order in Ha. fold k in Ha.
      apply in_map_iff in Ha as [idx [<- _]]. reflexivity. }
    rewrite Hc.
    rewrite Hsplit in Hss.
    exact (StronglySorted_app_cross _ _ _ _ _ Hss Hjo Hid).
  - exact Hties.
  - intros E. apply Hties. rewrite E. apply argsort_small_stable.
Qed.

(** A classification model with few classes, on numpy's scalar argsort. *)
Definition libs_small : Libs :=
  mkLibs (fun _ => Some (mkPil MRGB 100 100)) (fun _ => None)
         (fun t => Some (mkYOLO t 0)) (fun _ _ _ _ => inl []) argsort_small.

Definition probs_rising : list Q := [1 # 10; 2 # 10; 3 # 10; 4 # 10; 5 # 10; 6 # 10].

Lemma classify_top5_witness :
  (Permutation (np_argsort libs_small probs_rising) (seq 0 (length probs_rising)) /\
   Sorted (fun i j => Qle (nth_q probs_rising i) (nth_q probs_rising j))
          (np_argsort libs_small probs_rising) /\
   5 <= length probs_rising) /\
  (let preds := classify_predictions libs_small probs_rising [] in
   (forall r rs, r_probs r = Some probs_rising -> r_names r = Some [] ->
      exists o, _process_results libs_small (r :: rs) "classify"%string = inl o /\
                o_predictions o = Some preds) /\
   length preds = 5 /\
   StronglySorted (fun a b => Qle (confidence b) (confidence a)) preds /\
   NoDup (map class_id preds) /\
   (forall a, In a preds ->
      class_id a < length probs_rising /\ confidence a = nth_q probs_rising (class_id a) /\
      class_name a = names_get [] (class_id a) ("class_" ++ nat_to_string (class_id a))%string) /\
   (forall a j, In a preds -> j < length probs_rising -> ~ In j (map class_id preds) ->
      Qle (nth_q probs_rising j) (confidence a)) /\
   (Sorted (stable_before probs_rising) (np_argsort libs_small probs_rising) ->
      ties_higher_id_first preds) /\
   (np_argsort libs_small probs_rising = argsort_small probs_rising ->
      ties_higher_id_first preds)).
Proof.
  split.
  - split; [vm_compute; apply Permutation_refl|]. split; [|simpl; lia].
    vm_compute. repeat constructor; discriminate.
  - apply classify_top5;
      [vm_compute; apply Permutation_refl | vm_compute; repeat constructor; discriminate | simpl; lia].
Defined.

(** The tie rule of claim C7: equal probabilities are listed lower id first. *)
Definition ties_lower_id_first (ps : list ClassPred) : Prop :=
  forall i j a b, i < j -> nth_error ps i = Some a -> nth_error ps j = Some b ->
    Qeq (confidence a) (confidence b) -> class_id a < class_id b.

Definition raw_tied : RawResult :=
  mkRaw None None None (Some (repeat (1 # 5) 5)) (Some []).

(** C7 (counterexample): five classes of equal probability come out as
    ids 4, 3, 2, 1, 0: the reversed stable argsort lists ties higher id first. *)
Lemma C7_tied_probabilities_higher_id_first :
  exists o ps, _process_results libs_small [raw_tied] "classify"%string = inl o /\
    o_predictions o = Some ps /\
    map class_id ps = [4; 3; 2; 1; 0] /\ ~ ties_lower_id_first ps.
Proof.
  eexists. eexists. split; [vm_compute; reflexivity|]. split; [reflexivity|].
  split; [vm_compute; reflexivity|].
  intros H. specialize (H 0 1 _ _ ltac:(lia) eq_refl eq_refl). simpl in H.
  assert (4 < 3) by (apply H; reflexivity). lia.
Qed.

(** An idle two-worker pool. *)
Definition pool0 : Pool := mkPool 2 [] [] 0.

Lemma run_async_timeout_runs_to_completion_witness :
  (0 < max_workers pool0 /\
   fst (wait_result
          (snd (executor_submit pool0 5 (fst (run_inference libs_demo "detect"%string [] no_kwargs))))
          (next_id pool0) 2) = None) /\
  (fst (run_async libs_demo pool0 "detect"%string [] no_kwargs 5 2) =
     RFailure "Inference timeout"%string "detect"%string /\
   In (next_id pool0, fst (run_inference libs_demo "detect"%string [] no_kwargs))
      (map key (pending (snd (run_async libs_demo pool0 "detect"%string [] no_kwargs 5 2)))) /\
   (forall n, work (pending (snd (run_async libs_demo pool0 "detect"%string [] no_kwargs 5 2))) <= n ->
      In (next_id pool0, fst (run_inference libs_demo "detect"%string [] no_kwargs))
         (done (ticks n (snd (run_async libs_demo pool0 "detect"%string [] no_kwargs 5 2))))) /\
   run_async_default libs_demo pool0 "detect"%string [] no_kwargs 5 =
     run_async libs_demo pool0 "detect"%string [] no_kwargs 5 30).
Proof.
  split; [split; [unfold pool0; simpl; lia | vm_compute; reflexivity]|].
  apply run_async_timeout_runs_to_completion; [unfold pool0; simpl; lia | vm_compute; reflexivity].
Defined.

End EngineFacts.

(** ** AnalyticsDB and AnalyticsService *)
Module AnalyticsFacts.
Import AnalyticsDB.

Lemma put_unbounded q item :
  maxsize q = 0 -> put_timeout q item = Some (mkQueue 0 (items q ++ [item])).
Proof. intros H. unfold put_timeout. rewrite H. reflexivity. Qed.

Definition usage_item : QueueItem := ModelUsageWrite "detect"%string "models/weights/yolo11n.pt"%string.

(** The writer's [Queue()] holding 1000 queued writes. *)
Definition queue_1000 : Queue := mkQueue 0 (repeat usage_item 1000).

(** C3 (code_bug): [Queue()] is unbounded, so [put] never blocks and never
    raises [Full]; [log_inference] drops only when more than 1000 writes are
    queued, so at 1000 it still enqueues; and [log_model_usage] has no
    capacity check at all, so every call grows the queue. *)
Theorem C3_queue_grows_past_capacity :
  (forall q item, maxsize q = 0 -> exists q', put_timeout q item = Some q') /\
  (forall l task model_path,
     qsize (log_model_usage (mkQueue 0 l) task model_path) = S (length l)) /\
  qsize (log_inference queue_1000 "detect"%string "models/weights/yolo11n.pt"%string
           [] true None 0) = 1001 /\
  qsize (log_model_usage
           (log_inference queue_1000 "detect"%string "models/weights/yolo11n.pt"%string
              [] true None 0)
           "detect"%string "models/weights/yolo11n.pt"%string) = 1002.
Proof.
  split; [|split; [|split]].
  - intros q item H. rewrite put_unbounded by exact H. eauto.
  - intros l task mp. unfold log_model_usage, qsize. simpl.
    rewrite length_app, Nat.add_1_r. reflexivity.
  - vm_compute. reflexivity.
  - vm_compute. reflexivity.
Qed.

Lemma writer_cycle_queue ok st : w_queue (writer_cycle ok st) = skipn 100 (w_queue st).
Proof.
  unfold writer_cycle, get_batch. destruct (w_queue st) as [|w rest]; [reflexivity|].
  unfold _execute_batch_write. destruct ok; reflexivity.
Qed.

(** C4: one writer iteration on an empty queue waits its one-second
    timeout and changes nothing else; on a non-empty queue it takes the
    first [min(100, len)] writes as one batch, writes all of them in one
    transaction when the write succeeds, and when it fails logs one error
    and drops the batch without retrying; over any sequence of successes
    and failures the writer keeps consuming 100 writes per iteration. *)
Theorem writer_cycle_batches ok st :
  (w_queue st = [] ->
     writer_cycle ok st = mkWriter [] (w_db st) (w_log st) (S (w_clock st))) /\
  (w_queue st <> [] ->
     let batch := firstn 100 (w_queue st) in
     w_queue (writer_cycle ok st) = skipn 100 (w_queue st) /\
     1 <= length batch <= 100 /\
     w_clock (writer_cycle ok st) = w_clock st /\
     (ok = true ->
        w_db (writer_cycle ok st) = fold_left insert_write batch (w_db st) /\
        w_log (writer_cycle ok st) = w_log st) /\
     (ok = false ->
        w_db (writer_cycle ok st) = w_db st /\
        w_log (writer_cycle ok st) = w_log st ++ ["Batch write error"%string])) /\
  (forall oks, w_queue (writer_run oks st) = skipn (100 * length oks) (w_queue st)).
Proof.
  split; [|split].
  - intros H. unfold writer_cycle, get_batch. rewrite H. reflexivity.
  - intros H batch. unfold batch. rewrite writer_cycle_queue.
    unfold writer_cycle, get_batch, _execute_batch_write.
    destruct (w_queue st) as [|w rest]; [congruence|].
    split; [reflexivity|].
    split; [change (length (firstn 100 (w :: rest))) with (S (length (firstn 99 rest)));
            rewrite length_firstn; lia|].
    destruct ok; simpl; repeat split; try reflexivity; try discriminate;
      rewrite app_nil_r; reflexivity.
  - intros oks. revert st. induction oks as [|ok' oks IH]; intros st';
      cbn [writer_run length]; [reflexivity|].
    rewrite IH, writer_cycle_queue, skipn_skipn.
    replace (100 * length oks + 100) with (100 * S (length oks)) by lia. reflexivity.
Qed.

(** *** [get_stats] *)

Definition model_file : string := "models/weights/yolo11n.pt".

(** *** [AnalyticsService.log_inference_run] *)

(** The writer's [Queue()] holding 1001 queued writes. *)
Definition queue_1001 : Queue := mkQueue 0 (repeat usage_item 1001).



End AnalyticsFacts.

(** ** Statistics (core/db.py, get_stats) *)
Module StatsFacts.
Import AnalyticsStats.

(** A successful detect run with fps [10 * k] and inference time 25 ms. *)
Definition detect_row (k : nat) : Row :=
  mkRow "detect" (RReal (double_of_Z 25)) (RReal (double_of_Z (10 * Z.of_nat k))) true.

(** Ten successful detect runs with fps 10, 20, ..., 100. *)
Definition detect_runs : list Row := map detect_row (seq 1 10).

(** A successful detect run whose client-sent fps was the string ["-5x"]. *)
Definition text_fps_row : Row := mkRow "detect" RNull (RText "-5x") true.

Lemma dict_get_keys {V : Type} (f : string -> V) t K :
  dict_get t (map (fun k => (k, f k)) K) = if existsb (String.eqb t) K then Some (f t) else None.
Proof.
  induction K as [|k K IH]; simpl; [reflexivity|].
  destruct (String.eqb_spec t k) as [<-|]; [reflexivity|exact IH].
Qed.

Lemma existsb_nodup_tasks t (rows : list Row) :
  existsb (String.eqb t) (nodup string_dec (map task rows)) =
    existsb (fun r => String.eqb (task r) t) rows.
Proof.
  apply Bool.eq_iff_eq_true. rewrite !existsb_exists. split.
  - intros [k [Hk E]]. apply String.eqb_eq in E as <-.
    apply nodup_In, in_map_iff in Hk as [r [<- Hr]].
    exists r. split; [exact Hr|apply String.eqb_refl].
  - intros [r [Hr E]]. apply String.eqb_eq in E as <-.
    exists (task r). split; [apply nodup_In, in_map; exact Hr|apply String.eqb_refl].
Qed.

Lemma get_stats_failed_row text_real compensated r rows :
  success r = false ->
  get_stats text_real compensated (r :: rows) =
    let s := get_stats text_real compensated rows in
    mkStats (S (total_runs s))
      (round2 (PyFloat (SFmul prec emax
         (double_of_Q (Z.of_nat (length (successful rows)) # Pos.of_nat (S (length rows))))
         (double_of_Z 100))))
      (avg_fps s) (avg_inference_time_ms s) (task_stats s).
Proof.
  intros Hr. unfold get_stats, successful. cbn [filter length]. rewrite Hr. reflexivity.
Qed.

(** The exact rate the claim describes: successes / total * 100, rounded
    to two decimals. *)
Definition exact_rate (rows : list Row) : Q :=
  py_round2 ((Z.of_nat (length (successful rows)) # Pos.of_nat (length rows)) * 100).

(** 107 successful runs among 4000. *)
Definition rows_4000 : list Row :=
  repeat (detect_row 1) 107 ++ repeat (mkRow "detect" RNull RNull false) 3893.

(** Two successful runs, one of which reported fps 0 (as [run_inference]
    does when the measured inference time is 0). *)
Definition rows_with_zero_fps : list Row :=
  [mkRow "detect" (RReal (double_of_Z 0)) (RReal (double_of_Z 0)) true;
   mkRow "detect" (RReal (double_of_Z 100)) (RReal (double_of_Z 10)) true].

(** No [TEXT] value is read in the examples below. *)
Definition no_text (_ : string) : double := S754_zero false.



End StatsFacts.

(* ================================================================== *)
(** * Further properties of the modelled code *)

(** ** Model registry: entries, loading attempts, preloading *)
Module RegistryExtra.
Import ModelRegistry Preload.

Lemma dict_get_set_neq {V : Type} (k t : string) (v : V) d :
  t <> k -> dict_get t (dict_set k v d) = dict_get t d.
Proof.
  intros H. induction d as [|[k' v'] d IH]; simpl.
  - destruct (String.eqb_spec t k); congruence.
  - destruct (String.eqb_spec k k') as [->|Hne]; simpl.
    + destruct (String.eqb_spec t k'); congruence.
    + destruct (String.eqb_spec t k'); [reflexivity|exact IH].
Qed.

Lemma load_model_other env task st t :
  t <> task -> dict_get t (_models (_load_model env task st)) = dict_get t (_models st).
Proof.
  intros H. unfold _load_model, YOLO_new, install; simpl.
  destruct (yolo_ok _ _ _); simpl; [apply dict_get_set_neq; exact H|].
  destruct (yolo_ok _ _ _); simpl; [apply dict_get_set_neq; exact H|reflexivity].
Qed.

Lemma get_model_other env task st t :
  t <> task -> dict_get t (_models (snd (get_model env task st))) = dict_get t (_models st).
Proof.
  intros H. unfold get_model. destruct (dict_get task (_models st)); simpl; [reflexivity|].
  apply load_model_other; exact H.
Qed.

Lemma get_model_keeps env task st t h :
  dict_get t (_models st) = Some h -> dict_get t (_models (snd (get_model env task st))) = Some h.
Proof.
  intros H. destruct (String.eqb_spec t task) as [->|Hne].
  - rewrite (RegistryFacts.get_model_cached env task st h H). exact H.
  - rewrite get_model_other by exact Hne. exact H.
Qed.

Lemma get_model_result env task st :
  fst (get_model env task st) = dict_get task (_models (snd (get_model env task st))).
Proof. unfold get_model. destruct (dict_get task (_models st)) eqn:E; simpl; auto. Qed.

(** [get_model(task)] touches no other task's entry, never replaces a
    model already installed for its task (it returns that same handle and
    leaves the registry as it was), and always returns exactly what the
    registry holds for the task once it is done. *)
Theorem get_model_keeps_other_models env task st :
  (forall t, t <> task ->
     dict_get t (_models (snd (get_model env task st))) = dict_get t (_models st)) /\
  (forall h, dict_get task (_models st) = Some h -> get_model env task st = (Some h, st)) /\
  fst (get_model env task st) = dict_get task (_models (snd (get_model env task st))).
Proof.
  split; [|split].
  - intros t H. apply get_model_other; exact H.
  - intros h H. apply RegistryFacts.get_model_cached; exact H.
  - apply get_model_result.
Qed.


Lemma default_map_other task :
  ~ In task ["detect"; "segment"; "classify"; "pose"]%string -> default_map task = "yolo11n.pt"%string.
Proof.
  intros H. unfold default_map.
  destruct (String.eqb_spec task "detect"); [subst; simpl in H; tauto|].
  destruct (String.eqb_spec task "segment"); [subst; simpl in H; tauto|].
  destruct (String.eqb_spec task "classify"); [subst; simpl in H; tauto|].
  destruct (String.eqb_spec task "pose"); [subst; simpl in H; tauto|].
  reflexivity.
Qed.

(** A task outside the four known ones, with no usable configured path,
    gets the detection weights [yolo11n.pt]: [get_model] does not refuse
    an unknown task. *)
Theorem get_model_unknown_task_loads_detect_weights env task st
  (Hunknown : ~ In task ["detect"; "segment"; "classify"; "pose"]%string)
  (Hcfg : MODEL_PATHS env task = None)
  (Hnew : dict_get task (_models st) = None)
  (Hok : yolo_ok env (length (yolo_log st)) "yolo11n.pt"%string = true) :
  fst (get_model env task st) = Some (mkYOLO "yolo11n.pt"%string (length (yolo_log st))).
Proof.
  rewrite RegistryFacts.get_model_fresh by exact Hnew. simpl.
  unfold _load_model, YOLO_new, install, resolve_model_path. simpl.
  rewrite Hcfg, (default_map_other task Hunknown), Hok. simpl. apply dict_get_set_eq.
Qed.

Definition installed (st : Registry) (t : Task) : bool :=
  match dict_get t (_models st) with Some _ => true | None => false end.

Lemma NoDup_same_length {A : Type} (a b : list A) :
  NoDup a -> NoDup b -> (forall x, In x a <-> In x b) -> length a = length b.
Proof.
  intros Ha Hb H. apply Nat.le_antisymm; apply NoDup_incl_length; auto;
    intros x Hx; apply H; exact Hx.
Qed.

Lemma nodup_length_ext (a b : list string) :
  (forall x, In x a <-> In x b) ->
  length (nodup string_dec a) = length (nodup string_dec b).
Proof.
  intros H. apply NoDup_same_length; try apply NoDup_nodup.
  intros x. rewrite !nodup_In. apply H.
Qed.

Lemma nodup_cons_length t (L : list string) :
  length (nodup string_dec (t :: L)) = S (length (nodup string_dec (remove string_dec t L))).
Proof.
  change (S (length (nodup string_dec (remove string_dec t L))))
    with (length (t :: nodup string_dec (remove string_dec t L))).
  apply NoDup_same_length.
  - apply NoDup_nodup.
  - constructor; [|apply NoDup_nodup]. rewrite nodup_In. apply remove_In.
  - intros x. rewrite nodup_In. simpl. rewrite nodup_In. split.
    + intros [->|Hx]; [now left|].
      destruct (String.eqb_spec x t) as [->|Hne]; [now left|right].
      apply in_in_remove; auto.
    + intros [->|Hx]; [now left|]. right. apply in_remove in Hx. tauto.
Qed.

Lemma get_model_installs_all_ok env task st :
  (forall n p, yolo_ok env n p = true) ->
  exists h, fst (get_model env task st) = Some h /\
            dict_get task (_models (snd (get_model env task st))) = Some h.
Proof.
  intros Hok. rewrite <- get_model_result. unfold get_model.
  destruct (dict_get task (_models st)) as [h|] eqn:E; [exists h; auto|].
  unfold _load_model, YOLO_new, install. simpl. rewrite Hok. simpl.
  rewrite dict_get_set_eq. eauto.
Qed.

Lemma get_model_loads env task st :
  loads (snd (get_model env task st)) = if installed st task then loads st else S (loads st).
Proof.
  unfold get_model, installed. destruct (dict_get task (_models st)); simpl; [reflexivity|].
  apply RegistryFacts.load_model_loads.
Qed.

Lemma installed_after env task st t :
  installed (snd (get_model env task st)) t =
    if String.eqb t task then installed (snd (get_model env task st)) t else installed st t.
Proof.
  destruct (String.eqb_spec t task) as [->|Hne]; [reflexivity|].
  unfold installed. rewrite get_model_other by exact Hne. reflexivity.
Qed.

(** [preload_models(tasks)] when every [YOLO(...)] call succeeds: every
    listed task ends up with a model, models installed before keep their
    handle, each distinct task that had no model is loaded exactly once
    (a repeated task is not loaded again), and every task gets its warmup
    in list order, whatever the outcome of the earlier warmups. *)
Theorem preload_models_loads_each_task_once env warmup_ok tasks st
  (Hok : forall n p, yolo_ok env n p = true) :
  let st' := fst (preload_models env warmup_ok tasks st) in
  (forall t, In t tasks -> dict_get t (_models st') <> None) /\
  (forall t h, dict_get t (_models st) = Some h -> dict_get t (_models st') = Some h) /\
  loads st' = loads st + length (nodup string_dec (filter (fun t => negb (installed st t)) tasks)) /\
  map fst (snd (preload_models env warmup_ok tasks st)) = tasks.
Proof.
  revert st. induction tasks as [|t rest IH]; intros st st'.
  - unfold st'. simpl. repeat split; intros; auto; lia.
  - unfold st'. cbn [preload_models].
    destruct (get_model_installs_all_ok env t st Hok) as [h [Hh Hdh]].
    destruct (get_model env t st) as [model st1] eqn:Eg. simpl in Hh, Hdh. subst model.
    destruct (IH st1) as [IH1 [IH2 [IH3 IH4]]].
    destruct (preload_models env warmup_ok rest st1) as [st2 log] eqn:Ep. simpl in *.
    split; [|split; [|split]].
    + intros t' [<-|Ht']; [|apply IH1; exact Ht'].
      rewrite (IH2 t h Hdh). discriminate.
    + intros t' h' H'. apply IH2.
      replace st1 with (snd (get_model env t st)) by (rewrite Eg; reflexivity).
      apply get_model_keeps; exact H'.
    + rewrite IH3.
      pose proof (get_model_loads env t st) as Hl. rewrite Eg in Hl. simpl in Hl. rewrite Hl.
      cbn [filter]. destruct (installed st t) eqn:Ei; simpl negb; cbv iota.
      * f_equal. apply nodup_length_ext. intros x. rewrite !filter_In.
        pose proof (installed_after env t st x) as Ha. rewrite Eg in Ha. simpl in Ha.
        rewrite Ha. destruct (String.eqb_spec x t) as [Ext|Hne]; [|tauto].
        rewrite Ext. unfold installed at 1. rewrite Hdh. rewrite Ei. tauto.
      * rewrite nodup_cons_length. rewrite <- plus_n_Sm, <- plus_Sn_m. f_equal.
        apply nodup_length_ext. intros x. rewrite filter_In. split.
        -- intros [Hx Hp]. apply in_in_remove.
           ++ intros ->. unfold installed in Hp. rewrite Hdh in Hp. discriminate.
           ++ apply filter_In. split; [exact Hx|].
              pose proof (installed_after env t st x) as Ha. rewrite Eg in Ha. simpl in Ha.
              rewrite Ha in Hp. destruct (String.eqb_spec x t) as [Ext|]; [|exact Hp].
              rewrite Ext in Hp. unfold installed in Hp. rewrite Hdh in Hp. discriminate.
        -- intros Hx. apply in_remove in Hx as [Hx Hne]. apply filter_In in Hx as [Hx Hp].
           split; [exact Hx|].
           pose proof (installed_after env t st x) as Ha. rewrite Eg in Ha. simpl in Ha.
           rewrite Ha. destruct (String.eqb_spec x t); [contradiction|exact Hp].
    + rewrite IH4. reflexivity.
Qed.

Lemma get_model_unknown_task_loads_detect_weights_witness :
  fst (get_model RegistryFacts.env_all_ok "tracking"%string RegistryFacts.r_empty) =
    Some (mkYOLO "yolo11n.pt"%string 0).
Proof.
  apply (get_model_unknown_task_loads_detect_weights
           RegistryFacts.env_all_ok "tracking"%string RegistryFacts.r_empty);
    [simpl; intuition discriminate | reflexivity | reflexivity | reflexivity].
Defined.

Lemma preload_models_loads_each_task_once_witness :
  loads (fst (preload_models RegistryFacts.env_all_ok (fun _ => true)
                ["detect"; "detect"; "pose"]%string RegistryFacts.r_empty)) = 2.
Proof.
  destruct (preload_models_loads_each_task_once RegistryFacts.env_all_ok (fun _ => true)
              ["detect"; "detect"; "pose"]%string RegistryFacts.r_empty
              (fun _ _ => eq_refl)) as [_ [_ [H _]]].
  rewrite H. vm_compute. reflexivity.
Defined.

End RegistryExtra.

(** ** API routes *)
Module ApiFacts.
Import ModelRegistry Engine AnalyticsDB Api RegistryExtra.

Definition four_tasks : list string := ["detect"; "segment"; "classify"; "pose"]%string.

Lemma models_status_other env configs st t :
  ~ In t (map fst configs) ->
  dict_get t (_models (snd (models_status env configs st))) = dict_get t (_models st).
Proof.
  revert st; induction configs as [|[task path] rest IH]; intros st H; [reflexivity|].
  cbn [models_status].
  destruct (get_model env task st) as [m st1] eqn:Eg.
  destruct (models_status env rest st1) as [ms st2] eqn:Em. simpl in H |- *.
  replace st2 with (snd (models_status env rest st1)) by (rewrite Em; reflexivity).
  rewrite IH by tauto.
  replace st1 with (snd (get_model env task st)) by (rewrite Eg; reflexivity).
  apply get_model_other. intros E. apply H. left. symmetry. exact E.
Qed.

Lemma models_status_keeps env configs st t h :
  dict_get t (_models st) = Some h ->
  dict_get t (_models (snd (models_status env configs st))) = Some h.
Proof.
  revert st; induction configs as [|[task path] rest IH]; intros st H; [exact H|].
  cbn [models_status].
  destruct (get_model env task st) as [m st1] eqn:Eg.
  destruct (models_status env rest st1) as [ms st2] eqn:Em. simpl.
  replace st2 with (snd (models_status env rest st1)) by (rewrite Em; reflexivity).
  apply IH.
  replace st1 with (snd (get_model env task st)) by (rewrite Eg; reflexivity).
  apply get_model_keeps. exact H.
Qed.

Lemma models_status_keys env configs st :
  map fst (fst (models_status env configs st)) = map fst configs.
Proof.
  revert st; induction configs as [|[task path] rest IH]; intros st; [reflexivity|].
  cbn [models_status].
  destruct (get_model env task st) as [m st1] eqn:Eg.
  destruct (models_status env rest st1) as [ms st2] eqn:Em. simpl.
  f_equal. specialize (IH st1). rewrite Em in IH. exact IH.
Qed.

Lemma models_status_entries env configs st :
  NoDup (map fst configs) ->
  forall t path loaded, In (t, (path, loaded)) (fst (models_status env configs st)) ->
    In (t, path) configs /\
    (loaded = true <-> dict_get t (_models (snd (models_status env configs st))) <> None).
Proof.
  revert st; induction configs as [|[task path] rest IH]; intros st Hnd t path' loaded Hin;
    [destruct Hin|].
  cbn [models_status] in Hin |- *.
  pose proof (get_model_result env task st) as Hr.
  destruct (get_model env task st) as [m st1] eqn:Eg.
  pose proof (IH st1) as IH1.
  pose proof (models_status_other env rest st1 task) as Ho.
  destruct (models_status env rest st1) as [ms st2] eqn:Em. simpl in *.
  apply NoDup_cons_iff in Hnd as [Hnotin Hnd'].
  destruct Hin as [E|Hin].
  - injection E as Et Ep El. subst t path' loaded. split; [now left|].
    rewrite (Ho Hnotin), <- Hr. destruct m; split; congruence.
  - destruct (IH1 Hnd' t path' loaded Hin) as [H1 H2]. split; [now right|exact H2].
Qed.

Lemma models_status_loads env configs st :
  NoDup (map fst configs) ->
  loads (snd (models_status env configs st)) =
    loads st + length (filter (fun t => negb (installed st t)) (map fst configs)).
Proof.
  revert st; induction configs as [|[task path] rest IH]; intros st Hnd; [simpl; lia|].
  cbn [models_status map filter].
  pose proof (get_model_loads env task st) as Hl.
  pose proof (installed_after env task st) as Ha.
  destruct (get_model env task st) as [m st1] eqn:Eg. simpl in Hl, Ha.
  apply NoDup_cons_iff in Hnd as [Hnotin Hnd'].
  pose proof (IH st1 Hnd') as IH1.
  destruct (models_status env rest st1) as [ms st2] eqn:Em. simpl in *.
  assert (Hf : filter (fun t => negb (installed st1 t)) (map fst rest) =
               filter (fun t => negb (installed st t)) (map fst rest)).
  { apply filter_ext_in. intros x Hx. rewrite Ha.
    destruct (String.eqb_spec x task) as [E|]; [rewrite E in Hx; contradiction|reflexivity]. }
  rewrite IH1, Hf, Hl. destruct (installed st task); simpl; lia.
Qed.

Lemma model_configs_keys cfg : map fst (model_configs cfg) = four_tasks.
Proof. reflexivity. Qed.

Lemma four_tasks_NoDup : NoDup four_tasks.
Proof.
  unfold four_tasks. repeat constructor; simpl; intuition discriminate.
Qed.

(** [GET /api/models] calls [get_model] for the four tasks in order: it
    reports for each task its [MODEL_*] config path and whether the registry
    holds a model for it after the calls, keeps every model already loaded,
    and makes one load attempt for each of the four tasks that had no model,
    on every request (so a model that failed to load is retried each time
    the endpoint is hit). *)
Theorem get_models_reports_registry cfg env st :
  map fst (fst (get_models cfg env st)) = four_tasks /\
  (forall t path loaded, In (t, (path, loaded)) (fst (get_models cfg env st)) ->
     path = model_path_for cfg t /\
     (loaded = true <-> dict_get t (_models (snd (get_models cfg env st))) <> None)) /\
  (forall t h, dict_get t (_models st) = Some h ->
     dict_get t (_models (snd (get_models cfg env st))) = Some h) /\
  loads (snd (get_models cfg env st)) =
    loads st + length (filter (fun t => negb (installed st t)) four_tasks).
Proof.
  unfold get_models.
  pose proof four_tasks_NoDup as Hnd. rewrite <- (model_configs_keys cfg) in Hnd.
  split; [|split; [|split]].
  - rewrite models_status_keys. reflexivity.
  - intros t path loaded Hin.
    destruct (models_status_entries env _ st Hnd t path loaded Hin) as [Hc Hl].
    split; [|exact Hl].
    simpl in Hc. destruct Hc as [E|[E|[E|[E|[]]]]]; inversion E; subst; reflexivity.
  - intros t h H. apply models_status_keeps. exact H.
  - rewrite models_status_loads by exact Hnd. reflexivity.
Qed.

Lemma wait_result_next_id p id t : next_id (snd (wait_result p id t)) = next_id p.
Proof.
  revert p; induction t; intros p; simpl; destruct (lookup_done id (done p)); simpl; auto.
  rewrite IHt. unfold tick. destruct (split_finished _). reflexivity.
Qed.

Lemma run_async_next_id libs p task image_bytes kwargs dur timeout :
  next_id (snd (run_async libs p task image_bytes kwargs dur timeout)) = S (next_id p).
Proof.
  unfold run_async, executor_submit.
  pose proof (wait_result_next_id
                (mkPool (max_workers p)
                   (pending p ++ [mkFut (next_id p) dur (fst (run_inference libs task image_bytes kwargs))])
                   (done p) (S (next_id p))) (next_id p) timeout) as H.
  destruct (wait_result _ _ _) as [[r|] p2]; simpl in *; exact H.
Qed.


(** The analytics writes of [POST /api/process]: none when analytics are
    disabled; otherwise every inference-run row it queues has fps 0 (the
    [timing] dict of a result never has an [fps] key), the model path the
    config gives for the task, and the success flag and error of the result
    returned to the client. *)
Theorem process_image_logs_zero_fps cfg req libs p dur clk l :
  (config_get (ENABLE_ANALYTICS cfg) false = false ->
     items (snd (process_image cfg req libs p dur clk (mkQueue 0 l))) = l) /\
  exists new,
    items (snd (process_image cfg req libs p dur clk (mkQueue 0 l))) = l ++ new /\
    forall d, In (InferenceRunWrite d) new ->
      fps d = 0%Q /\ run_model_path d = model_path_for cfg (run_task d) /\
      exists r, fst (fst (process_image cfg req libs p dur clk (mkQueue 0 l))) = POk r /\
                success d = result_success r /\ error_message d = result_error r.
Proof.
  unfold process_image. cbv zeta.
  destruct (match MAX_CONTENT_LENGTH cfg with Some m => _ | None => _ end);
    [split; [reflexivity|exists []; split; [rewrite app_nil_r; reflexivity|intros _ []]]|].
  destruct (files_image req) as [file|];
    [|split; [reflexivity|exists []; split; [rewrite app_nil_r; reflexivity|intros _ []]]].
  destruct (String.eqb (filename file) "");
    [split; [reflexivity|exists []; split; [rewrite app_nil_r; reflexivity|intros _ []]]|].
  destruct (MAX_CONTENT_LENGTH cfg) as [max_size|];
    [|split; [reflexivity|exists []; split; [rewrite app_nil_r; reflexivity|intros _ []]]].
  destruct (_ <? _)%N;
    [split; [reflexivity|exists []; split; [rewrite app_nil_r; reflexivity|intros _ []]]|].
  destruct (negb _);
    [split; [reflexivity|exists []; split; [rewrite app_nil_r; reflexivity|intros _ []]]|].
  destruct (run_async _ _ _ _ _ _ _) as [result p'].
  destruct (config_get (ENABLE_ANALYTICS cfg) false) eqn:En.
  2:{ simpl. split; [reflexivity|exists []; split; [rewrite app_nil_r; reflexivity|intros _ []]]. }
  split; [discriminate|].
  set (mt := config_get (form_model_type req) "detect"%string).
  set (fs := length (file_bytes file)).
  unfold log_inference_run, log_inference, log_model_usage, put_timeout, qsize. cbn [items maxsize].
  destruct (1000 <? length l).
  - cbn. destruct (result_success result); cbn.
    + exists [ModelUsageWrite mt (model_path_for cfg mt)]. split; [reflexivity|].
      intros d [E|[]]. discriminate.
    + exists []. split; [rewrite app_nil_r; reflexivity|intros _ []].
  - cbn. destruct (result_success result) eqn:Es; cbn.
    + eexists. rewrite <- app_assoc. split; [reflexivity|].
      intros d [E|[E|[]]]; [|discriminate]. inversion E; subst d. cbn.
      split; [destruct result; reflexivity|]. split; [reflexivity|].
      exists result. auto.
    + eexists. split; [reflexivity|].
      intros d [E|[]]. inversion E; subst d. cbn.
      split; [destruct result; reflexivity|]. split; [reflexivity|].
      exists result. auto.
Qed.

End ApiFacts.

(** ** Inference engine: postprocessing, pool, pool size *)
Module EngineExtra.
Import ModelRegistry Engine Workers.

Lemma in_tasks_In t l : in_tasks t l = true -> In t l.
Proof.
  unfold in_tasks. intros H. apply existsb_exists in H as [x [Hx E]].
  apply String.eqb_eq in E. subst. exact Hx.
Qed.

Lemma names_index_ok names ids :
  (forall c, In c ids -> exists v, In (c, v) names) ->
  names_index names ids = inl (map (fun c => names_get names c ""%string) ids).
Proof.
  induction ids as [|c ids IH]; intros H; [reflexivity|]. simpl.
  unfold names_get at 1.
  destruct (find (fun kv => Nat.eqb (fst kv) c) names) as [[k v]|] eqn:E.
  - rewrite IH by (intros c' Hc'; apply H; right; exact Hc'). reflexivity.
  - destruct (H c (or_introl eq_refl)) as [v Hv].
    eapply find_none in E; [|exact Hv]. simpl in E. rewrite Nat.eqb_refl in E. discriminate.
Qed.

Lemma names_index_missing names ids c :
  In c ids -> (forall v, ~ In (c, v) names) -> exists e, names_index names ids = inr e.
Proof.
  induction ids as [|a ids IH]; intros Hc Hn; [destruct Hc|]. simpl.
  destruct (find (fun kv => Nat.eqb (fst kv) a) names) as [[k v]|] eqn:E; [|eauto].
  destruct Hc as [<-|Hc].
  - apply find_some in E as [Hin Hk]. simpl in Hk. apply Nat.eqb_eq in Hk. subst k.
    exfalso. exact (Hn v Hin).
  - destruct (IH Hc Hn) as [e He]. rewrite He. eauto.
Qed.

(** For a detect, segment or pose request, the class names come from
    [result.names[int(cls_id)]]: when every detected class id has a name,
    the run succeeds with the boxes, class ids and confidences of the model
    output and the matching names; when some detected class id has no name,
    the [KeyError] fails the whole run, and none of its boxes are returned. *)
Theorem detection_needs_every_class_name libs task image_bytes kwargs img m result rest
  boxes confs ids names
  (Htask : In task ["detect"; "segment"; "pose"]%string)
  (Hdec : _decode_image libs image_bytes = Some img)
  (Hm : lib_get_model libs task = Some m)
  (Hp : predict libs m img (kw_get (kw_imgsz kwargs) 640%Z) (kw_get (kw_conf kwargs) (25 # 100))
        = inl (result :: rest))
  (Hb : r_boxes result = Some (boxes, confs, ids))
  (Hn : r_names result = Some names) :
  ((forall c, In c ids -> exists v, In (c, v) names) ->
     exists out, fst (run_inference libs task image_bytes kwargs) = RSuccess out task /\
       o_boxes out = Some boxes /\ o_classes out = ids /\ o_confidences out = confs /\
       o_class_names out = Some (map (fun c => names_get names c ""%string) ids)) /\
  (forall c, In c ids -> (forall v, ~ In (c, v) names) ->
     exists e, fst (run_inference libs task image_bytes kwargs) = RFailure e task).
Proof.
  unfold run_inference. rewrite Hdec, Hm. cbv zeta. rewrite Hp.
  destruct Htask as [<-|[<-|[<-|[]]]]; unfold _process_results; cbn;
    rewrite Hb, Hn; (split;
    [ intros Hall; rewrite (names_index_ok names ids Hall); cbn;
      try destruct (r_masks result); try destruct (r_keypoints result); cbn;
      eexists; repeat split
    | intros c Hc Hnc; destruct (names_index_missing names ids c Hc Hnc) as [e He];
      rewrite He; cbn; eauto ]).
Qed.

(** The keys of [_process_results]'s dict follow the task: with no results
    it is the empty dict with [boxes], [masks], [classes] and
    [confidences]; otherwise [boxes] and [class_names] appear only for
    detect, segment and pose, [masks] only for segment, [keypoints] only for
    pose and [predictions] only for classify (an unknown task gets only
    empty [classes] and [confidences]). *)
Theorem process_results_keys libs results task out
  (Hout : _process_results libs results task = inl out) :
  (results = [] -> out = empty_output) /\
  (results <> [] ->
     (o_boxes out <> None -> In task ["detect"; "segment"; "pose"]%string) /\
     (o_class_names out <> None -> In task ["detect"; "segment"; "pose"]%string) /\
     (o_masks out <> None -> task = "segment"%string) /\
     (o_keypoints out <> None -> task = "pose"%string) /\
     (o_predictions out <> None -> task = "classify"%string)).
Proof.
  destruct results as [|result rest].
  - simpl in Hout. injection Hout as <-. split; [reflexivity|]. intros H. contradiction.
  - split; [discriminate|]. intros _. unfold _process_results in Hout. cbv zeta in Hout.
    destruct (in_tasks task ["detect"; "segment"; "pose"]%string) eqn:Ein;
    repeat (match goal with
            | H : context [match ?x with _ => _ end] |- _ => destruct x eqn:?
            end; try discriminate).
    all: repeat match goal with H : inl _ = inl _ |- _ => injection H as H; subst end.
    all: repeat match goal with H : String.eqb _ _ = true |- _ => apply String.eqb_eq in H end.
    all: cbn [o_boxes o_masks o_classes o_confidences o_class_names o_keypoints o_predictions].
    all: repeat split; intros Hne; try congruence; apply in_tasks_In; assumption.
Qed.

(** *** The pool runs a call that found a free worker to completion *)

Lemma split_finished_app a b :
  split_finished (a ++ b) =
    (fst (split_finished a) ++ fst (split_finished b),
     snd (split_finished a) ++ snd (split_finished b)).
Proof.
  induction a as [|f a IH]; simpl.
  - destruct (split_finished b); reflexivity.
  - rewrite IH. destruct (split_finished a) as [fa sa]. simpl.
    destruct (remaining f <=? 1); reflexivity.
Qed.

Lemma split_finished_fin_ids l kv :
  In kv (fst (split_finished l)) -> In (fst kv) (map fid l).
Proof.
  induction l as [|f l IH]; simpl; [tauto|].
  destruct (split_finished l) as [fin still] eqn:E. simpl in IH.
  destruct (remaining f <=? 1); simpl; [intros [<-|H]; [now left|right; auto]|].
  intros H. right. auto.
Qed.

Lemma split_finished_still_ids l f' :
  In f' (snd (split_finished l)) -> In (fid f') (map fid l).
Proof.
  induction l as [|f l IH]; simpl; [tauto|].
  destruct (split_finished l) as [fin still] eqn:E. simpl in IH.
  destruct (remaining f <=? 1); simpl; [intros H; right; auto|].
  intros [<-|H]; [now left|right; auto].
Qed.

Lemma split_finished_still_length l : length (snd (split_finished l)) <= length l.
Proof.
  induction l as [|f l IH]; simpl; [lia|].
  destruct (split_finished l) as [fin still] eqn:E. simpl in IH.
  destruct (remaining f <=? 1); simpl; lia.
Qed.

Lemma lookup_done_app id d1 d2 :
  lookup_done id (d1 ++ d2) =
    match lookup_done id d1 with Some r => Some r | None => lookup_done id d2 end.
Proof.
  unfold lookup_done. induction d1 as [|[k r] d1 IH]; simpl; [reflexivity|].
  destruct (Nat.eqb k id); [reflexivity|exact IH].
Qed.

Lemma lookup_done_absent id d :
  (forall kv, In kv d -> fst kv <> id) -> lookup_done id d = None.
Proof.
  unfold lookup_done. intros H. induction d as [|[k r] d IH]; simpl; [reflexivity|].
  destruct (Nat.eqb_spec k id) as [E|]; [exfalso; exact (H (k, r) (or_introl eq_refl) E)|].
  apply IH. intros kv Hkv. apply H. right. exact Hkv.
Qed.

(** The submitted call [id] is among the first [max_workers] pending
    futures with [r] ticks left, no other future carries its id, and no
    result is recorded for it yet. *)
Definition runs_at (id : nat) (res : InferResult) (r : nat) (q : Pool) : Prop :=
  exists l1 l2, pending q = l1 ++ mkFut id r res :: l2 /\ length l1 < max_workers q /\
    (forall f, In f (l1 ++ l2) -> fid f <> id) /\ lookup_done id (done q) = None.

Lemma tick_runs_at id res r q :
  runs_at id res r q ->
  (r <= 1 -> lookup_done id (done (tick q)) = Some res) /\
  (1 < r -> runs_at id res (pred r) (tick q)).
Proof.
  intros (l1 & l2 & Hp & Hlen & Hf & Hd).
  set (k := max_workers q - length l1 - 1).
  assert (Hfirst : firstn (max_workers q) (pending q) = l1 ++ mkFut id r res :: firstn k l2).
  { rewrite Hp, firstn_app, firstn_all2 by lia. f_equal.
    replace (max_workers q - length l1) with (S k) by (unfold k; lia). reflexivity. }
  assert (Hskip : skipn (max_workers q) (pending q) = skipn k l2).
  { rewrite Hp, skipn_app, skipn_all2 by lia. simpl.
    replace (max_workers q - length l1) with (S k) by (unfold k; lia). reflexivity. }
  assert (Hin2 : forall f, In f (firstn k l2) -> In f l2)
    by (intros f Hf'; rewrite <- (firstn_skipn k l2); apply in_or_app; left; exact Hf').
  assert (Hin3 : forall f, In f (skipn k l2) -> In f l2)
    by (intros f Hf'; rewrite <- (firstn_skipn k l2); apply in_or_app; right; exact Hf').
  assert (Hfin1 : forall kv, In kv (fst (split_finished l1)) -> fst kv <> id).
  { intros kv Hkv. apply split_finished_fin_ids in Hkv. apply in_map_iff in Hkv as [f [<- Hf']].
    apply Hf. apply in_or_app. left. exact Hf'. }
  assert (Hfin2 : forall kv, In kv (fst (split_finished (firstn k l2))) -> fst kv <> id).
  { intros kv Hkv. apply split_finished_fin_ids in Hkv. apply in_map_iff in Hkv as [f [<- Hf']].
    apply Hf. apply in_or_app. right. apply Hin2. exact Hf'. }
  unfold tick. rewrite Hfirst, Hskip, split_finished_app. cbn [split_finished].
  destruct (split_finished (firstn k l2)) as [fin2 still2] eqn:E2. simpl in Hfin2.
  split.
  - intros Hr. cbn. replace (r <=? 1) with true by (symmetry; apply Nat.leb_le; exact Hr).
    cbn. rewrite !lookup_done_app, Hd, (lookup_done_absent id _ Hfin1).
    unfold lookup_done. simpl. rewrite Nat.eqb_refl. reflexivity.
  - intros Hr. cbn. replace (r <=? 1) with false by (symmetry; apply Nat.leb_gt; exact Hr).
    cbn. exists (snd (split_finished l1)), (still2 ++ skipn k l2).
    cbn [pending max_workers done]. split; [|split; [|split]].
    + rewrite <- app_assoc. reflexivity.
    + pose proof (split_finished_still_length l1). lia.
    + intros f Hf'. apply in_app_or in Hf' as [Hf' | Hf'].
      * apply split_finished_still_ids in Hf'. apply in_map_iff in Hf' as [g [Eg Hg]].
        rewrite <- Eg. apply Hf. apply in_or_app. left. exact Hg.
      * apply in_app_or in Hf' as [Hf' | Hf'].
        -- pose proof (split_finished_still_ids (firstn k l2) f) as Hs. rewrite E2 in Hs.
           simpl in Hs. apply Hs in Hf'. apply in_map_iff in Hf' as [g [Eg Hg]].
           rewrite <- Eg. apply Hf. apply in_or_app. right. apply Hin2. exact Hg.
        -- apply Hf. apply in_or_app. right. apply Hin3. exact Hf'.
    + rewrite !lookup_done_app, Hd, (lookup_done_absent id _ Hfin1),
        (lookup_done_absent id _ Hfin2). reflexivity.
Qed.

Lemma wait_runs_at t id res r q :
  runs_at id res r q -> r <= t -> 1 <= t -> fst (wait_result q id t) = Some res.
Proof.
  revert q r; induction t as [|t IH]; intros q r Hq Hr Ht; [lia|].
  pose proof Hq as (l1 & l2 & _ & _ & _ & Hd).
  simpl. rewrite Hd.
  destruct (tick_runs_at id res r q Hq) as [Hfin Hrun].
  destruct (Nat.le_gt_cases r 1) as [Hle|Hgt].
  - specialize (Hfin Hle). destruct t; simpl; rewrite Hfin; reflexivity.
  - apply (IH _ (pred r)); [exact (Hrun Hgt)|lia|lia].
Qed.

(** When the submitted call finds a free worker (fewer calls pending than
    [max_workers]) and needs no more ticks than the timeout, [run_async]
    returns the call's own result, success or failure, and not the timeout
    error. The other preconditions say the new future's id is fresh, as it
    is for a pool built by [submit]. *)
Theorem run_async_free_worker_returns_result libs p task image_bytes kwargs dur timeout
  (Hfree : length (pending p) < max_workers p)
  (Hids : forall f, In f (pending p) -> fid f <> next_id p)
  (Hdone : lookup_done (next_id p) (done p) = None)
  (Htime : dur <= timeout) (Hpos : 1 <= timeout) :
  fst (run_async libs p task image_bytes kwargs dur timeout) =
    fst (run_inference libs task image_bytes kwargs).
Proof.
  set (res := fst (run_inference libs task image_bytes kwargs)).
  assert (H : fst (wait_result (snd (executor_submit p dur res)) (next_id p) timeout) = Some res).
  { apply (wait_runs_at timeout (next_id p) res dur); [|exact Htime|exact Hpos].
    exists (pending p), []. unfold executor_submit. simpl.
    split; [reflexivity|]. split; [exact Hfree|]. split; [|exact Hdone].
    intros f Hf. rewrite app_nil_r in Hf. apply Hids. exact Hf. }
  unfold run_async. fold res. simpl in H |- *.
  destruct (wait_result _ _ _) as [[r|] p2]; simpl in H |- *; congruence.
Qed.

(** The engine's pool size: the global engine is built without
    [max_workers], so it gets [THREAD_POOL_WORKERS], between 2 and 8
    whatever [os.cpu_count()] returns; a positive [max_workers] is used as
    given. *)
Theorem engine_pool_size cpu n :
  2 <= max_workers (global_engine_pool cpu) <= 8 /\
  max_workers (global_engine_pool cpu) = THREAD_POOL_WORKERS cpu /\
  engine_max_workers (Some (S n)) cpu = S n.
Proof.
  unfold global_engine_pool, engine_max_workers, THREAD_POOL_WORKERS.
  cbn [max_workers]. set (c := or_count cpu 2).
  replace (or_count None (Nat.max 2 (Nat.min 8 c))) with (Nat.max 2 (Nat.min 8 c))
    by reflexivity.
  repeat split; try reflexivity; lia.
Qed.

Definition libs_rgb : Libs :=
  mkLibs (fun _ => Some (mkPil MRGB 64 64)) (fun _ => None)
         (fun t => Some (mkYOLO t 0))
         (fun _ _ _ _ => inl [mkRaw (Some ([[0%Q; 0%Q; 10%Q; 10%Q]], [9 # 10], [0])) None None None
                                    (Some [(0, "person"%string)])])
         (fun _ => []).

Lemma detection_needs_every_class_name_witness :
  exists out, fst (run_inference libs_rgb "detect"%string [] no_kwargs) = RSuccess out "detect"%string /\
    o_class_names out = Some ["person"%string].
Proof.
  destruct (detection_needs_every_class_name libs_rgb "detect"%string [] no_kwargs
              (mkArr 64 64 3 OrdRGB) (mkYOLO "detect"%string 0)
              (mkRaw (Some ([[0%Q; 0%Q; 10%Q; 10%Q]], [9 # 10], [0])) None None None
                     (Some [(0, "person"%string)])) []
              [[0%Q; 0%Q; 10%Q; 10%Q]] [9 # 10] [0] [(0, "person"%string)])
    as [Hok _]; try (simpl; auto; fail); try reflexivity.
  destruct Hok as [out [Hr [_ [_ [_ Hn]]]]].
  - intros c [<-|[]]. exists "person"%string. left. reflexivity.
  - exists out. split; [exact Hr|]. rewrite Hn. reflexivity.
Defined.

Lemma process_results_keys_witness :
  _process_results libs_rgb [mkRaw None None None (Some [1 # 2]) (Some [(0, "cat"%string)])]
    "classify"%string = inl (mkOut None None [] [] None None (Some [])) /\
  (o_masks (mkOut None None [] [] None None (Some [])) <> None ->
     "classify"%string = "segment"%string).
Proof.
  assert (E : _process_results libs_rgb
                [mkRaw None None None (Some [1 # 2]) (Some [(0, "cat"%string)])]
                "classify"%string = inl (mkOut None None [] [] None None (Some [])))
    by (vm_compute; reflexivity).
  split; [exact E|].
  destruct (process_results_keys libs_rgb _ _ _ E) as [_ H].
  apply H. discriminate.
Defined.

Lemma run_async_free_worker_returns_result_witness :
  fst (run_async libs_rgb (mkPool 2 [] [] 0) "detect"%string [] no_kwargs 3 5) =
    fst (run_inference libs_rgb "detect"%string [] no_kwargs).
Proof.
  apply run_async_free_worker_returns_result; simpl; try lia; try reflexivity;
    intros f [].
Defined.

End EngineExtra.

(** ** Document search *)
Module ChromaFacts.
Import Chroma.

Lemma build_documents_ok res i docs :
  (forall j, j < length docs ->
     first_at (qr_distances res) (i + j) 0%Q <> None /\
     first_at (qr_metadatas res) (i + j) [] <> None) ->
  exists out, build_documents res i docs = Some out /\ map content out = docs /\
    (forall j d, nth_error out j = Some d ->
       first_at (qr_distances res) (i + j) 0%Q = Some (distance d) /\
       first_at (qr_metadatas res) (i + j) [] = Some (metadata d)).
Proof.
  revert i; induction docs as [|doc docs IH]; intros i H.
  - exists []. split; [reflexivity|]. split; [reflexivity|]. intros j d Hj.
    destruct j; discriminate.
  - destruct (H 0 ltac:(simpl; lia)) as [Hd Hm]. rewrite Nat.add_0_r in Hd, Hm.
    destruct (IH (S i)) as [out [Hb [Hc Hn]]].
    { intros j Hj. replace (S i + j) with (i + S j) by lia. apply H. simpl. lia. }
    simpl. destruct (first_at (qr_distances res) i 0%Q) as [dist|] eqn:Ed; [|congruence].
    destruct (first_at (qr_metadatas res) i []) as [meta|] eqn:Em; [|congruence].
    rewrite Hb. eexists. split; [reflexivity|]. split; [simpl; f_equal; exact Hc|].
    intros [|j] d Hj; simpl in Hj.
    + injection Hj as <-. rewrite Nat.add_0_r. simpl. split; assumption.
    + replace (i + S j) with (S i + j) by lia. apply Hn. exact Hj.
Qed.

Lemma build_documents_short res i docs j :
  j < length docs ->
  first_at (qr_distances res) (i + j) 0%Q = None \/ first_at (qr_metadatas res) (i + j) [] = None ->
  build_documents res i docs = None.
Proof.
  revert i j; induction docs as [|doc docs IH]; intros i j Hj H; [simpl in Hj; lia|].
  simpl. destruct j as [|j].
  - rewrite Nat.add_0_r in H.
    destruct H as [H|H]; rewrite H; [reflexivity|].
    destruct (first_at (qr_distances res) i 0%Q); reflexivity.
  - rewrite (IH (S i) j); [| simpl in Hj; lia | replace (S i + j) with (i + S j) by lia; exact H].
    destruct (first_at (qr_distances res) i 0%Q), (first_at (qr_metadatas res) i []); reflexivity.
Qed.

Lemma build_documents_absent res i docs :
  qr_distances res = None -> qr_metadatas res = None ->
  build_documents res i docs = Some (map (fun doc => mkDoc doc 0%Q []) docs).
Proof.
  intros Hd Hm. revert i; induction docs as [|doc docs IH]; intros i; [reflexivity|].
  simpl. unfold first_at at 1 2. rewrite Hd, Hm, IH. reflexivity.
Qed.

Lemma search_documents_build c q n res docs rest :
  available c = true -> query c q n = Some res -> qr_documents res = Some (docs :: rest) ->
  search_documents c q n = match build_documents res 0 docs with Some ds => ds | None => [] end.
Proof.
  intros Ha Hq Hd. unfold search_documents. rewrite Ha, Hq, Hd. simpl.
  destruct docs; reflexivity.
Qed.

Lemma first_at_short {A : Type} (l0 : list A) rest j (dflt : A) :
  length l0 <= j -> first_at (Some (l0 :: rest)) j dflt = None.
Proof. intros H. simpl. apply nth_error_None. exact H. Qed.

(** [search_documents] is all or nothing: without the collection, or when
    the query raises, it returns [[]]. Otherwise, for the first query's
    documents, it returns one entry per document, in order, with the
    document's text, when every document has a distance and a metadata
    entry (the default [0] and [{}] when those lists are missing or empty):
    with no distances and no metadatas at all the entries are
    [(doc, 0, {})]. When a present distances or metadatas list is shorter
    than the documents, the [IndexError] makes the whole result [[]]. *)
Theorem search_documents_all_or_nothing c q n :
  (available c = false -> search_documents c q n = []) /\
  (query c q n = None -> search_documents c q n = []) /\
  (forall res docs rest,
     available c = true -> query c q n = Some res -> qr_documents res = Some (docs :: rest) ->
     ((forall j, j < length docs ->
         first_at (qr_distances res) j 0%Q <> None /\ first_at (qr_metadatas res) j [] <> None) ->
      map content (search_documents c q n) = docs /\
      (forall j d, nth_error (search_documents c q n) j = Some d ->
         first_at (qr_distances res) j 0%Q = Some (distance d) /\
         first_at (qr_metadatas res) j [] = Some (metadata d))) /\
     (qr_distances res = None -> qr_metadatas res = None ->
      search_documents c q n = map (fun doc => mkDoc doc 0%Q []) docs) /\
     (forall d0 drest, qr_distances res = Some (d0 :: drest) -> length d0 < length docs ->
        search_documents c q n = []) /\
     (forall m0 mrest, qr_metadatas res = Some (m0 :: mrest) -> length m0 < length docs ->
        search_documents c q n = [])).
Proof.
  split; [|split].
  - intros H. unfold search_documents. rewrite H. reflexivity.
  - intros H. unfold search_documents. destruct (negb (available c)); [reflexivity|].
    rewrite H. reflexivity.
  - intros res docs rest Ha Hq Hd. rewrite (search_documents_build c q n res docs rest Ha Hq Hd).
    split; [|split; [|split]].
    + intros H. destruct (build_documents_ok res 0 docs H) as [out [Hb [Hc Hn]]].
      rewrite Hb. split; [exact Hc|]. exact Hn.
    + intros Hdist Hmeta. rewrite build_documents_absent by assumption. reflexivity.
    + intros d0 drest Hdist Hlen.
      rewrite (build_documents_short res 0 docs (length d0)); [reflexivity|exact Hlen|].
      left. rewrite Hdist. apply first_at_short. lia.
    + intros m0 mrest Hmeta Hlen.
      rewrite (build_documents_short res 0 docs (length m0)); [reflexivity|exact Hlen|].
      right. rewrite Hmeta. apply first_at_short. lia.
Qed.

End ChromaFacts.

(** ** Analytics database: the writer and the statistics *)
Module DBExtra.
Import AnalyticsDB.

(** The rows that a list of queued writes adds to each table. *)
Definition run_rows (ws : list QueueItem) : list RunData :=
  flat_map (fun w => match w with InferenceRunWrite d => [d] | _ => [] end) ws.

Definition usage_rows (ws : list QueueItem) : list (string * string) :=
  flat_map (fun w => match w with ModelUsageWrite t m => [(t, m)] | _ => [] end) ws.

Lemma fold_insert_write ws db :
  fold_left insert_write ws db =
    mkDB (inference_runs db ++ run_rows ws) (model_usage db ++ usage_rows ws).
Proof.
  revert db; induction ws as [|w ws IH]; intros db; simpl.
  - rewrite !app_nil_r. destruct db; reflexivity.
  - rewrite IH. destruct w; simpl; rewrite <- app_assoc; reflexivity.
Qed.

(** If every batch write succeeds, [k] iterations of the background writer
    drain a queue of at most [100 * k] writes: the queue ends empty, nothing
    is logged, and both tables receive exactly the queued rows, in queue
    order. *)
Theorem writer_flushes_queue_in_order k st
  (Hk : length (w_queue st) <= 100 * k) :
  w_queue (writer_run (repeat true k) st) = [] /\
  w_log (writer_run (repeat true k) st) = w_log st /\
  inference_runs (w_db (writer_run (repeat true k) st)) =
    inference_runs (w_db st) ++ run_rows (w_queue st) /\
  model_usage (w_db (writer_run (repeat true k) st)) =
    model_usage (w_db st) ++ usage_rows (w_queue st).
Proof.
  revert st Hk; induction k as [|k IH]; intros st Hk.
  - simpl. destruct (w_queue st) eqn:E; [|simpl in Hk; lia].
    simpl. rewrite !app_nil_r. repeat split; reflexivity.
  - simpl. destruct (w_queue st) as [|w rest] eqn:E.
    + replace (writer_cycle true st) with (mkWriter [] (w_db st) (w_log st) (S (w_clock st)))
        by (unfold writer_cycle, get_batch; rewrite E; reflexivity).
      destruct (IH (mkWriter [] (w_db st) (w_log st) (S (w_clock st)))) as [H1 [H2 [H3 H4]]];
        [simpl; lia|].
      rewrite H1, H2, H3, H4. cbn [w_queue w_log w_db]. unfold run_rows, usage_rows.
      simpl. rewrite !app_nil_r. repeat split; reflexivity.
    + replace (writer_cycle true st)
        with (mkWriter (skipn 99 rest) (fold_left insert_write (w :: firstn 99 rest) (w_db st))
                (w_log st ++ []) (w_clock st))
        by (unfold writer_cycle, get_batch; rewrite E; reflexivity).
      destruct (IH (mkWriter (skipn 99 rest) (fold_left insert_write (w :: firstn 99 rest) (w_db st))
                      (w_log st ++ []) (w_clock st))) as [H1 [H2 [H3 H4]]].
      { cbn [w_queue]. rewrite length_skipn. simpl in Hk. lia. }
      rewrite H1, H2, H3, H4. cbn [w_db w_log w_queue]. rewrite fold_insert_write.
      cbn [inference_runs model_usage]. rewrite app_nil_r, <- !app_assoc.
      unfold run_rows, usage_rows. rewrite <- !flat_map_app.
      replace (w :: firstn 99 rest) with (firstn 100 (w :: rest)) by reflexivity.
      replace (skipn 99 rest) with (skipn 100 (w :: rest)) by reflexivity.
      rewrite !firstn_skipn. repeat split; reflexivity.
Qed.

Lemma writer_flushes_queue_in_order_witness :
  model_usage (w_db (writer_run (repeat true 1)
    (mkWriter [ModelUsageWrite "detect"%string "models/weights/yolo11n.pt"%string;
               ModelUsageWrite "pose"%string "models/weights/yolo11n-pose.pt"%string]
              (mkDB [] []) [] 0))) =
    [("detect"%string, "models/weights/yolo11n.pt"%string);
     ("pose"%string, "models/weights/yolo11n-pose.pt"%string)].
Proof.
  destruct (writer_flushes_queue_in_order 1
              (mkWriter [ModelUsageWrite "detect"%string "models/weights/yolo11n.pt"%string;
                         ModelUsageWrite "pose"%string "models/weights/yolo11n-pose.pt"%string]
                        (mkDB [] []) [] 0)) as [_ [_ [_ H]]]; [simpl; lia|].
  rewrite H. reflexivity.
Defined.

End DBExtra.

(** ** Statistics: the per-task breakdown *)
Module StatsExtra.
Import AnalyticsStats.

Definition sum_over (f : string -> nat) (K : list string) : nat :=
  fold_right (fun t acc => f t + acc) 0 K.

Lemma sum_over_plus f g K :
  sum_over (fun t => f t + g t) K = sum_over f K + sum_over g K.
Proof. induction K as [|t K IH]; simpl; [reflexivity|]. rewrite IH. lia. Qed.

Lemma sum_over_zero f K : (forall t, In t K -> f t = 0) -> sum_over f K = 0.
Proof.
  induction K as [|t K IH]; intros H; simpl; [reflexivity|].
  rewrite H by (left; reflexivity). apply IH. intros t' Ht'. apply H. right. exact Ht'.
Qed.

Lemma sum_over_ext f g K : (forall t, f t = g t) -> sum_over f K = sum_over g K.
Proof. intros H. induction K as [|t K IH]; simpl; [reflexivity|]. rewrite H, IH. reflexivity. Qed.

Lemma sum_over_indicator a K :
  NoDup K -> In a K -> sum_over (fun t => if String.eqb a t then 1 else 0) K = 1.
Proof.
  induction K as [|t K IH]; intros Hnd Hin; [destruct Hin|].
  apply NoDup_cons_iff in Hnd as [Hnot Hnd]. simpl.
  destruct (String.eqb_spec a t) as [<-|Hne].
  - rewrite sum_over_zero; [reflexivity|].
    intros t' Ht'. destruct (String.eqb_spec a t') as [<-|]; [contradiction|reflexivity].
  - destruct Hin as [<-|Hin]; [contradiction|]. apply IH; assumption.
Qed.

Lemma count_partition (l : list Row) K :
  NoDup K -> (forall r, In r l -> In (task r) K) ->
  sum_over (fun t => length (filter (fun r => String.eqb (task r) t) l)) K = length l.
Proof.
  induction l as [|r l IH]; intros Hnd Hin.
  - apply sum_over_zero. reflexivity.
  - simpl.
    transitivity (sum_over (fun t => (if String.eqb (task r) t then 1 else 0) +
                     length (filter (fun r0 => String.eqb (task r0) t) l)) K).
    { apply sum_over_ext. intros t. simpl.
      destruct (String.eqb (task r) t); reflexivity. }
    rewrite sum_over_plus, sum_over_indicator, IH; try assumption; [reflexivity| |].
    + intros r' Hr'. apply Hin. right. exact Hr'.
    + apply Hin. left. reflexivity.
Qed.

Lemma group_by_task_keys text_real compensated l :
  map fst (group_by_task text_real compensated l) = nodup string_dec (map task l).
Proof. unfold group_by_task. rewrite map_map. apply map_id. Qed.

Lemma group_by_task_counts text_real compensated l :
  fold_right (fun e acc => fst (snd e) + acc) 0 (group_by_task text_real compensated l) =
    sum_over (fun t => length (filter (fun r => String.eqb (task r) t) l))
             (nodup string_dec (map task l)).
Proof.
  unfold group_by_task, sum_over.
  induction (nodup string_dec (map task l)) as [|t K IH]; simpl; [reflexivity|].
  rewrite IH. reflexivity.
Qed.

(** The per-task breakdown of [get_stats] partitions the successful runs:
    each task appears once, the tasks listed are exactly those with a
    successful run, and the counts add up to the number of successful runs
    (failed runs are in no group). *)
Theorem task_stats_partition text_real compensated rows :
  NoDup (map fst (task_stats (get_stats text_real compensated rows))) /\
  (forall t, In t (map fst (task_stats (get_stats text_real compensated rows))) <->
     exists r, In r rows /\ success r = true /\ task r = t) /\
  fold_right (fun e acc => fst (snd e) + acc) 0 (task_stats (get_stats text_real compensated rows)) =
    length (successful rows).
Proof.
  unfold get_stats. cbn [task_stats].
  rewrite group_by_task_keys, group_by_task_counts.
  split; [|split].
  - apply NoDup_nodup.
  - intros t. rewrite nodup_In, in_map_iff. split.
    + intros [r [<- Hr]]. unfold successful in Hr. apply filter_In in Hr as [Hr Hs].
      exists r. auto.
    + intros [r [Hr [Hs <-]]]. exists r. split; [reflexivity|].
      unfold successful. apply filter_In. auto.
  - apply count_partition; [apply NoDup_nodup|].
    intros r Hr. apply nodup_In. apply in_map. exact Hr.
Qed.

End StatsExtra.

(** ** Performance grade *)
Module ServiceFacts.
Import AnalyticsStats Service.

(** [get_performance_metrics()] grades ["poor"] whenever no successful run
    has an fps that passes SQLite's [fps > 0] (no runs at all, or only the
    rows [/api/process] writes, whose fps is always 0): [avg_fps] is then
    the [int] 0, below the slow threshold 10, whatever the inference
    times. *)
Theorem zero_fps_rows_grade_poor text_real compensated rows
  (Hfps : Forall (fun r => success r = false \/ gt_zero (fps r) = false) rows) :
  pm_avg_fps (get_performance_metrics text_real compensated rows) = PyInt 0 /\
  grade (get_performance_metrics text_real compensated rows) = "poor"%string.
Proof.
  assert (Hnil : filter (fun r => success r && gt_zero (fps r)) rows = []).
  { induction Hfps as [|r rows [Hr|Hr] Hrs IH]; [reflexivity| |]; simpl;
      rewrite Hr; [|rewrite andb_false_r]; exact IH. }
  unfold get_performance_metrics, get_stats.
  cbn [avg_fps avg_inference_time_ms pm_avg_fps grade].
  rewrite Hnil. split; reflexivity.
Qed.

Lemma zero_fps_rows_grade_poor_witness :
  grade (get_performance_metrics (fun _ => S754_zero false) true
           [mkRow "detect"%string (RReal (double_of_Z 40)) (RReal (double_of_Z 0)) true])
  = "poor"%string.
Proof.
  apply (zero_fps_rows_grade_poor (fun _ => S754_zero false) true
           [mkRow "detect"%string (RReal (double_of_Z 40)) (RReal (double_of_Z 0)) true]).
  constructor; [right; vm_compute; reflexivity|constructor].
Defined.

End ServiceFacts.
